(** * ci-chat-bot: build-cluster kubeconfig discovery, watches and start-up

    A shallow embedding of [main.go]: the file-name matcher
    [reBuildClusterName], the directory scanner [readBuildClusterKubeConfigs],
    the watch set-up [setupKubeconfigWatches] with its event loop, and the
    start-up sequence [run] with the bot retry loop.

    Calls that leave the file (the operating system, client-go, fsnotify, the
    rest of the repository) are answered by a [World] record of oracles; every
    such call is also appended to a trace of [event]s, so that statements about
    what was, or was not, done can be made about the trace.

    A panic is modelled where the code can run into one on values it is
    handed: [imageclientset.NewForConfig] at line 107 on the nil
    configuration that line 106 may leave, the error of that line not being
    looked at.

    Left out: any other panic inside a library call, a command line that
    [pflag.Parse] refuses, and the interleaving of the watch goroutine with
    [run] (the goroutine is modelled on its own, as a function of the events
    its channel delivers). *)

From Stdlib Require Import Ascii String NArith ZArith Lia.
From stdpp Require Import base option list strings gmap fin_maps.

Set Warnings "-clear-no-such-hyp".

Local Open Scope string_scope.
Local Open Scope list_scope.

(** ** Strings, bytes and runes

    A Go [string] is a sequence of bytes: Rocq's [string]. The [regexp]
    package walks it one UTF-8 encoded code point at a time (functions
    [step] of [regexp] and [DecodeRuneInString] of [unicode/utf8]); a byte
    that does not start a well-formed encoding counts as one code point of
    width 1. *)

Module Utf8.

Definition byte_val (b : ascii) : N := N_of_ascii b.

Definition in_range (lo hi : N) (b : ascii) : bool :=
  ((lo <=? byte_val b) && (byte_val b <=? hi))%N.

(** Continuation bytes: [locb = 0x80], [hicb = 0xBF]. *)
Definition locb : N := 128.
Definition hicb : N := 191.

(** Table [first] of [unicode/utf8] together with [acceptRanges]: for a lead
    byte, the length of the encoding and the range allowed for the second
    byte; [None] for ASCII bytes and for bytes that cannot lead. *)
Definition first (b0 : ascii) : option (nat * (N * N)) :=
  let x := byte_val b0 in
  if (x <? 194)%N then None                       (* 0x00-0x7F as, 0x80-0xC1 xx *)
  else if (x <? 224)%N then Some (2, (locb, hicb))  (* 0xC2-0xDF s1 *)
  else if (x =? 224)%N then Some (3, (160%N, hicb)) (* 0xE0 s2 *)
  else if (x =? 237)%N then Some (3, (locb, 159%N)) (* 0xED s4 *)
  else if (x <? 240)%N then Some (3, (locb, hicb))  (* 0xE1-0xEC, 0xEE-0xEF s3 *)
  else if (x =? 240)%N then Some (4, (144%N, hicb)) (* 0xF0 s5 *)
  else if (x <? 244)%N then Some (4, (locb, hicb))  (* 0xF1-0xF3 s6 *)
  else if (x =? 244)%N then Some (4, (locb, 143%N)) (* 0xF4 s7 *)
  else None.                                        (* 0xF5-0xFF xx *)

(** Width in bytes of the code point at the head of [s], as the second
    result of [DecodeRuneInString]; 0 only for the empty string. *)
Definition rune_width (s : string) : nat :=
  match s with
  | EmptyString => 0
  | String b0 s1 =>
    match first b0 with
    | None => 1
    | Some (sz, (lo, hi)) =>
      match s1 with
      | EmptyString => 1
      | String b1 s2 =>
        if negb (in_range lo hi b1) then 1
        else if (sz <=? 2)%nat then 2
        else
          match s2 with
          | EmptyString => 1
          | String b2 s3 =>
            if negb (in_range locb hicb b2) then 1
            else if (sz <=? 3)%nat then 3
            else
              match s3 with
              | EmptyString => 1
              | String b3 _ => if in_range locb hicb b3 then 4 else 1
              end
          end
      end
    end
  end.

(** The code points of [s], each as the bytes that encode it. *)
Fixpoint runes (s : string) : list string :=
  match s with
  | EmptyString => []
  | String b0 s1 =>
    match rune_width s, s1 with
    | 2%nat, String b1 s2 =>
        String b0 (String b1 EmptyString) :: runes s2
    | 3%nat, String b1 (String b2 s3) =>
        String b0 (String b1 (String b2 EmptyString)) :: runes s3
    | 4%nat, String b1 (String b2 (String b3 s4)) =>
        String b0 (String b1 (String b2 (String b3 EmptyString))) :: runes s4
    | _, _ => String b0 EmptyString :: runes s1
    end
  end.

Definition unrunes (rs : list string) : string :=
  fold_right String.append EmptyString rs.

End Utf8.

(** ** The Credential File Matcher: [reBuildClusterName]

    The pattern compiled at line 32 reads, left to right: a capture group
    holding a greedy star of the dot, a second dot, and the ten letters
    [kubeconfig]. A dot is "any code point but newline": the second one is
    not escaped, so it is not the full stop. There is no anchor on either
    side. *)

Module Regexp.

Definition newline : string := String (ascii_of_nat 10) EmptyString.

(** The instruction for [.]: any code point except ['\n']. *)
Definition any_not_nl (r : string) : bool := negb (String.eqb r newline).

Definition literal : list string := Utf8.runes "kubeconfig".

(** Matches the literal [lit] at the head of [rs]. *)
Fixpoint has_prefix (lit rs : list string) : bool :=
  match lit, rs with
  | [], _ => true
  | c :: lit', r :: rs' => String.eqb c r && has_prefix lit' rs'
  | _ :: _, [] => false
  end.

(** What follows the group: [.kubeconfig] at the head of [rs]; the result
    is the text it matched. *)
Definition after_group (rs : list string) : option (list string) :=
  match rs with
  | r :: rs' =>
      if any_not_nl r && has_prefix literal rs' then Some (r :: literal)
      else None
  | [] => None
  end.

(** The whole expression tried at the head of [rs], as a backtracking
    matcher runs it: the star takes one more code point whenever that still
    leads to a match (it is greedy), and stops otherwise. The result is
    (text of the match, text of group 1). *)
Fixpoint match_here (rs : list string) : option (list string * list string) :=
  match rs with
  | [] => None
  | r :: rs' =>
      let stop :=
        match after_group rs with
        | Some t => Some (t, [])
        | None => None
        end in
      if any_not_nl r then
        match match_here rs' with
        | Some (m0, m1) => Some (r :: m0, r :: m1)
        | None => stop
        end
      else stop
  end.

(** Leftmost match: the first position from which [match_here] succeeds. *)
Fixpoint find (rs : list string) : option (list string * list string) :=
  match match_here rs with
  | Some m => Some m
  | None =>
      match rs with
      | [] => None
      | _ :: rs' => find rs'
      end
  end.

End Regexp.

(** [reBuildClusterName.FindStringSubmatch(s)]: [None] is Go's [nil]
    slice; otherwise the slice has two elements (the expression has one
    group), given here as the pair [(m[0], m[1])]. *)
Definition reBuildClusterName_FindStringSubmatch (s : string)
  : option (string * string) :=
  match Regexp.find (Utf8.runes s) with
  | Some (m0, m1) => Some (Utf8.unrunes m0, Utf8.unrunes m1)
  | None => None
  end.

(** ** Data model *)

(** Values that [main.go] only passes around: pointers to objects of
    client-go, of the openshift client sets and of the rest of the
    repository. The number is the identity of the object. These are the
    pointers that are not nil, as a call hands them back beside a nil error;
    where the code goes on with a pointer that may be nil (the
    configuration of line 106, whose error is not looked at) the pointer is
    an [option], [None] being nil. *)
Inductive ClientConfig := ClientConfigAt (addr : nat).
Inductive RestConfig := RestConfigAt (addr : nat).
Inductive CoreClientset := CoreClientsetAt (addr : nat).
Inductive ProjectClientset := ProjectClientsetAt (addr : nat).
Inductive ImageClientset := ImageClientsetAt (addr : nat).
Inductive ProwClient := ProwClientAt (addr : nat).
Inductive ConfigAgent := ConfigAgentAt (addr : nat).
Inductive URL := URLAt (addr : nat).

(** [os.FileInfo], as far as the scanner looks at it. *)
Record FileInfo := { Name : string; IsDir : bool }.

Record BuildClusterClientConfig := {
  KubeconfigPath : string;
  CoreConfig : RestConfig;
  CoreClient : CoreClientset;
  ProjectClient : ProjectClientset;
  TargetImageClient : ImageClientset
}.

(** [BuildClusterClientConfigMap]: a Go map from cluster name to bundle. *)
Abbreviation BuildClusterClientConfigMap := (gmap string BuildClusterClientConfig).

(** Go [error] values: those handed back by calls that leave the file, and
    those built here by [fmt.Errorf], kept as the format with its
    arguments. A possibly-[nil] error is an [option error]. *)
Inductive error :=
| LibError (msg : string)
| Errorf (format : string) (args : list fmt_arg)
with fmt_arg :=
| ArgString (s : string)
| ArgError (e : error)
| ArgCluster (c : BuildClusterClientConfig).

Record options := {
  GithubEndpoint : string;
  ForcePROwner : string;
  BuildClusterKubeconfig : string;
  BuildClusterKubeconfigsLocation : string;
  ReleaseClusterKubeconfig : string;
  ConfigResolver : string
}.

(** The command line as [pflag.Parse] sees it: for each flag, the value
    given, if any. *)
Record CommandLine := {
  cli_config_resolver : option string;
  cli_github_endpoint : option string;
  cli_force_pr_owner : option string;
  cli_build_cluster_kubeconfig : option string;
  cli_build_cluster_kubeconfigs_location : option string;
  cli_release_cluster_kubeconfig : option string
}.

(** Lines 54-72: the defaults, overridden by the flags given. The value of
    [--build-cluster-kubeconfig] goes to the local [ignored]. *)
Definition parse_options (c : CommandLine) : options := {|
  GithubEndpoint := default "https://api.github.com" (cli_github_endpoint c);
  ForcePROwner := default "" (cli_force_pr_owner c);
  BuildClusterKubeconfig := "";
  BuildClusterKubeconfigsLocation :=
    default "/var/build-cluster-kubeconfigs"
            (cli_build_cluster_kubeconfigs_location c);
  ReleaseClusterKubeconfig := default "" (cli_release_cluster_kubeconfig c);
  ConfigResolver :=
    default "http://config.ci.openshift.org/config" (cli_config_resolver c)
|}.

(** What a call to [bot.Start] does: it comes back with an error or [nil],
    or it keeps running. *)
Inductive bot_return :=
| BotReturns (err : option error)
| BotKeepsRunning.

(** ** The world outside [main.go] *)

Record World := {
  command_line : CommandLine;
  os_Getenv : string -> string;
  path_Join : string -> string -> string;
  ioutil_ReadDir : string -> list FileInfo + error;
  ioutil_ReadFile : string -> string + error;
  clientcmd_NewClientConfigFromBytes : string -> ClientConfig + error;
  cfg_ClientConfig : ClientConfig -> RestConfig + error;
  clientset_NewForConfig : RestConfig -> CoreClientset + error;
  imageclientset_NewForConfig : RestConfig -> ImageClientset + error;
  projectclientset_NewForConfig : RestConfig -> ProjectClientset + error;
  fsnotify_NewWatcher : option error;
  os_Stat : string -> option error;
  watcher_Add : string -> option error;
  (** the order in which a [range] over the cluster map visits it *)
  range_order : BuildClusterClientConfigMap -> list (string * BuildClusterClientConfig);
  url_Parse : string -> URL + error;
  (** functions of the repository defined in other files *)
  loadKubeconfig : RestConfig + error;
  (** the configuration it hands back may be nil *)
  loadKubeconfigFromFlagOrDefault :
    string -> RestConfig -> option RestConfig * option error;
  isRetriable : error -> bool;
  manager_Start : option error;
  (** the [n]-th call of [bot.Start], counted from 0 *)
  bot_Start : nat -> bot_return;
  dynamic_NewForConfig : RestConfig -> ProwClient + error;
  prowconfig_ConfigAgent : ConfigAgent + error
}.

(** [fsnotify.Event] and the bits of [fsnotify.Op]
    ([Create Op = 1 << iota], then [Write], [Remove], [Rename], [Chmod]);
    an event may carry several bits. *)
Record fsnotify_Event := { ev_Name : string; ev_Op : Z }.

Module fsnotify.

Definition Create : Z := Z.shiftl 1 0.
Definition Write : Z := Z.shiftl 1 1.
Definition Remove : Z := Z.shiftl 1 2.
Definition Rename : Z := Z.shiftl 1 3.
Definition Chmod : Z := Z.shiftl 1 4.

End fsnotify.

(** [time.Second], in nanoseconds. *)
Definition time_Second : Z := 1000000000.

(** Every call that leaves the file, in the order made. *)
Inductive event :=
| E_ReadDir (location : string)
| E_ReadFile (path : string)
| E_NewClientConfigFromBytes (contents : string)
| E_ClientConfig (cfg : ClientConfig)
| E_NewCoreClient (c : RestConfig)
| E_NewImageClient (c : RestConfig)
| E_NewProjectClient (c : RestConfig)
| E_NewWatcher
| E_Stat (path : string) (err : option error)
| E_WatcherAdd (path : string) (err : option error)
| E_GoEventLoop
| E_Warningf (format : string) (err : error)
| E_Infof (format : string) (e : fsnotify_Event)
| E_Exit (code : Z)
| E_LogFatal (err : error)
| E_UrlParse (s : string)
| E_Getenv (name : string)
| E_LoadKubeconfig
| E_DynamicNewForConfig (c : RestConfig)
| E_LoadKubeconfigFromFlagOrDefault (path : string) (def : RestConfig)
| E_ConfigAgent
| E_NewJobManager (agent : ConfigAgent) (resolver : URL) (prow : ProwClient)
                  (image : ImageClientset)
                  (clusters : option BuildClusterClientConfigMap)
                  (githubEndpoint forcePROwner : string)
| E_ManagerStart
| E_NewBot (token : string)
| E_BotStart (n : nat)
| E_Sleep (d : Z)
(** [imageclientset.NewForConfig(nil)] *)
| E_NewImageClientNil.

Abbreviation trace := (list event).

(** ** A small monad: a trace of calls, and early return

    [M R A] is a piece of a Go function whose early [return] carries an
    [R]: it extends the trace and either goes on with an [A] or returns. *)

Definition M (R A : Type) : Type := trace -> (A + R) * trace.

Definition ret {R A} (a : A) : M R A := fun t => (inl a, t).

Definition bind {R A B} (m : M R A) (k : A -> M R B) : M R B :=
  fun t =>
    match m t with
    | (inl a, t') => k a t'
    | (inr r, t') => (inr r, t')
    end.

(** [return r] of Go. *)
Definition return_ {R A} (r : R) : M R A := fun t => (inr r, t).

(** A call that leaves the file: [x, err := f(...)] followed by
    [if err != nil { return wrap(err) }]. *)
Definition call {R A} (ev : event) (res : A + error) (wrap : error -> R) : M R A :=
  fun t =>
    match res with
    | inl a => (inl a, t ++ [ev])
    | inr err => (inr (wrap err), t ++ [ev])
    end.

(** A call whose result is used as it is. *)
Definition perform {R A} (ev : event) (res : A) : M R A :=
  fun t => (inl res, t ++ [ev]).

Declare Scope go_scope.
Delimit Scope go_scope with go.
Notation "x <- m ;; k" := (bind m (fun x => k))
  (at level 100, m at next level, right associativity) : go_scope.
Notation "m ;;; k" := (bind m (fun _ => k))
  (at level 100, right associativity) : go_scope.

Local Open Scope go_scope.

(** ** The Cluster Directory Scanner: [readBuildClusterKubeConfigs] *)

(** Go's two results [(map, error)]; [None] in the first is the [nil] map. *)
Abbreviation scan_result := (option BuildClusterClientConfigMap * option error)%type.

(** Lines 153-183, the Cluster Client Bundle Builder: the file at
    [fullPath] is read and parsed, the connection configuration is
    resolved, and the three clients are made from it, in the order core,
    image, project. [name] is [file.Name()], for the error message. Every
    failure is a [return nil, fmt.Errorf(...)] of the scanner. *)
Definition build_bundle (w : World) (fullPath name : string)
  : M scan_result BuildClusterClientConfig :=
  contents <- call (E_ReadFile fullPath) (ioutil_ReadFile w fullPath)
    (fun err =>
       (None, Some (Errorf "unable to access kubeconfig %q: %v"
                           [ArgString name; ArgError err]))) ;;
  cfg <- call (E_NewClientConfigFromBytes contents)
    (clientcmd_NewClientConfigFromBytes w contents)
    (fun err =>
       (None, Some (Errorf "could not load build client configuration: %v"
                           [ArgError err]))) ;;
  clusterConfig <- call (E_ClientConfig cfg) (cfg_ClientConfig w cfg)
    (fun err =>
       (None, Some (Errorf "could not load cluster configuration: %v"
                           [ArgError err]))) ;;
  coreClient <- call (E_NewCoreClient clusterConfig)
    (clientset_NewForConfig w clusterConfig)
    (fun err =>
       (None, Some (Errorf "unable to create core client: %v"
                           [ArgError err]))) ;;
  targetImageClient <- call (E_NewImageClient clusterConfig)
    (imageclientset_NewForConfig w clusterConfig)
    (fun err =>
       (None, Some (Errorf "unable to create target image client: %v"
                           [ArgError err]))) ;;
  projectClient <- call (E_NewProjectClient clusterConfig)
    (projectclientset_NewForConfig w clusterConfig)
    (fun err =>
       (None, Some (Errorf "unable to create project client: %v"
                           [ArgError err]))) ;;
  ret {| KubeconfigPath := fullPath;
         CoreConfig := clusterConfig;
         CoreClient := coreClient;
         ProjectClient := projectClient;
         TargetImageClient := targetImageClient |}.

(** Lines 148-184, the body of the loop for one directory entry: the next
    value of [clusterMap], or the results the function returns with. *)
Definition scan_entry (w : World) (location : string) (file : FileInfo)
    (clusterMap : BuildClusterClientConfigMap)
  : M scan_result BuildClusterClientConfigMap :=
  if IsDir file then ret clusterMap
  else
    let fullPath := path_Join w location (Name file) in
    match reBuildClusterName_FindStringSubmatch (Name file) with
    | None => ret clusterMap
    | Some (_, m1) =>
        bundle <- build_bundle w fullPath (Name file) ;;
        ret (<[ m1 := bundle ]> clusterMap)
    end.

(** Lines 147-185: the loop over the directory listing. *)
Fixpoint scan_entries (w : World) (location : string) (files : list FileInfo)
    (clusterMap : BuildClusterClientConfigMap)
  : M scan_result BuildClusterClientConfigMap :=
  match files with
  | [] => ret clusterMap
  | file :: files' =>
      clusterMap' <- scan_entry w location file clusterMap ;;
      scan_entries w location files' clusterMap'
  end.

Definition readBuildClusterKubeConfigs (w : World) (location : string)
  : trace -> scan_result * trace :=
  fun t =>
    let body : M scan_result BuildClusterClientConfigMap :=
      files <- call (E_ReadDir location) (ioutil_ReadDir w location)
        (fun err =>
           (None, Some (Errorf "unable to access location %q: %v"
                               [ArgString location; ArgError err]))) ;;
      scan_entries w location files ∅ in
    match body t with
    | (inl clusterMap, t') => ((Some clusterMap, None), t')
    | (inr results, t') => (results, t')
    end.

(** ** The Kubeconfig Watch Supervisor: [setupKubeconfigWatches] *)

Definition check (err : option error) : unit + error :=
  match err with
  | None => inl tt
  | Some e => inr e
  end.

(** Lines 194-201: the loop over the clusters, in the order [clusters]. *)
Fixpoint watch_clusters (w : World)
    (clusters : list (string * BuildClusterClientConfig)) : M error unit :=
  match clusters with
  | [] => ret tt
  | (_, cluster) :: clusters' =>
      let p := KubeconfigPath cluster in
      st <- perform (E_Stat p (os_Stat w p)) (os_Stat w p) ;;
      match st with
      | Some _ => watch_clusters w clusters'
      | None =>
          call (E_WatcherAdd p (watcher_Add w p)) (check (watcher_Add w p))
            (fun err => Errorf "failed to watch %v: %w"
                               [ArgCluster cluster; ArgError err]) ;;;
          watch_clusters w clusters'
      end
  end.

(** The function up to its [return]: the goroutine of lines 203-212 is
    started ([E_GoEventLoop]) and runs on its own, see [eventLoop]. *)
Definition setupKubeconfigWatches (w : World)
    (clusters : BuildClusterClientConfigMap) : trace -> option error * trace :=
  fun t =>
    let body : M error unit :=
      call E_NewWatcher (check (fsnotify_NewWatcher w))
        (fun err => Errorf "failed to set up watcher: %w" [ArgError err]) ;;;
      watch_clusters w (range_order w clusters) ;;;
      perform E_GoEventLoop tt in
    match body t with
    | (inl _, t') => (None, t')
    | (inr err, t') => (Some err, t')
    end.

(** The paths a trace shows as watched: those [watcher.Add] accepted. *)
Fixpoint watched (t : trace) : list string :=
  match t with
  | [] => []
  | E_WatcherAdd p None :: t' => p :: watched t'
  | _ :: t' => watched t'
  end.

(** Where the goroutine stands: waiting for the next event of the
    channel, or gone with the whole process through [os.Exit]. Nothing in
    the file closes the watcher, so the [range] has no other end. *)
Inductive loop_state :=
| Watching
| Exited (code : Z).

(** The format of line 209. *)
Definition kubeconfig_changed : string :=
  "event: %s, kubeconfig changed, exiting to make the kubelet restart us so we can pick them up".

(** Lines 205-210, the body of the loop for one event. *)
Definition on_event (e : fsnotify_Event) (t : trace) : loop_state * trace :=
  if (ev_Op e =? fsnotify.Chmod)%Z then (Watching, t)
  else (Exited 0, t ++ [E_Infof kubeconfig_changed e; E_Exit 0]).

(** Lines 204-211, on the events the channel has delivered so far. *)
Fixpoint eventLoop (events : list fsnotify_Event) (t : trace)
  : loop_state * trace :=
  match events with
  | [] => (Watching, t)
  | e :: events' =>
      match on_event e t with
      | (Watching, t') => eventLoop events' t'
      | (Exited code, t') => (Exited code, t')
      end
  end.

(** ** The Bootstrap Orchestrator: [run] *)

(** How [run] leaves lines 52-122 early: by a [return] of an error, or by a
    panic that unwinds it. *)
Inductive stop :=
| Return (err : error)
| Panic.

(** [imageclientset.NewForConfig] begins by copying the configuration it is
    given ([configShallowCopy := *c]): on a nil pointer the call panics. *)
Definition panic {A} (ev : event) : M stop A :=
  fun t => (inr Panic, t ++ [ev]).

(** How far [run] gets: it returns, or it panics, or it is inside
    [bot.Start] for good, or the model stops looking after [fuel] rounds of
    the retry loop. *)
Inductive outcome :=
| Returned (err : option error)
| Panicked
| InsideBot
| StillRetrying.

Definition stopped (s : stop) : outcome :=
  match s with
  | Return err => Returned (Some err)
  | Panic => Panicked
  end.

(** Lines 123-128. [n] counts the calls of [bot.Start] made so far. *)
Fixpoint bot_loop (w : World) (fuel n : nat) (t : trace) : outcome * trace :=
  match fuel with
  | O => (StillRetrying, t)
  | S fuel' =>
      let t1 := t ++ [E_BotStart n] in
      match bot_Start w n with
      | BotKeepsRunning => (InsideBot, t1)
      | BotReturns err =>
          let again := bot_loop w fuel' (S n) (t1 ++ [E_Sleep (5 * time_Second)]) in
          match err with
          | Some e => if negb (isRetriable w e) then (Returned (Some e), t1) else again
          | None => again
          end
      end
  end.

(** Lines 84-122: from the resolver URL to the bot. The result is the bot
    token the bot was made with. *)
Definition run_from_resolver (w : World) (opt : options)
    (buildClusterClientConfigs : option BuildClusterClientConfigMap)
  : M stop string :=
  resolverURL <- call (E_UrlParse (ConfigResolver opt)) (url_Parse w (ConfigResolver opt))
    (fun err => Return (Errorf "--config-resolver is not a valid URL: %v"
                               [ArgError err])) ;;
  botToken <- perform (E_Getenv "BOT_TOKEN") (os_Getenv w "BOT_TOKEN") ;;
  if (String.length botToken =? 0)%nat
  then return_ (Return (Errorf "the environment variable BOT_TOKEN must be set" []))
  else
    prowJobKubeconfig <- call E_LoadKubeconfig (loadKubeconfig w)
      (fun err => Return err) ;;
    prowClient <- call (E_DynamicNewForConfig prowJobKubeconfig)
      (dynamic_NewForConfig w prowJobKubeconfig)
      (fun err => Return (Errorf "unable to create prow client: %v"
                                 [ArgError err])) ;;
    (* line 106: [err] is assigned, and assigned again by line 107 *)
    loaded <- perform
      (E_LoadKubeconfigFromFlagOrDefault (ReleaseClusterKubeconfig opt) prowJobKubeconfig)
      (loadKubeconfigFromFlagOrDefault w (ReleaseClusterKubeconfig opt) prowJobKubeconfig) ;;
    imageClient <-
      match fst loaded with
      | Some releaseConfig =>
          call (E_NewImageClient releaseConfig)
            (imageclientset_NewForConfig w releaseConfig)
            (fun err => Return (Errorf "unable to create image client: %v"
                                       [ArgError err]))
      | None => panic E_NewImageClientNil
      end ;;
    configAgent <- call E_ConfigAgent (prowconfig_ConfigAgent w)
      (fun err => Return err) ;;
    perform (E_NewJobManager configAgent resolverURL prowClient imageClient
               buildClusterClientConfigs (GithubEndpoint opt) (ForcePROwner opt)) tt ;;;
    call E_ManagerStart (check (manager_Start w))
      (fun err => Return (Errorf "unable to load initial configuration: %v"
                                 [ArgError err])) ;;;
    perform (E_NewBot botToken) tt ;;;
    ret botToken.

(** Lines 80-82: the watch set-up, whose error is only logged. *)
Definition watch_step (w : World)
    (buildClusterClientConfigs : option BuildClusterClientConfigMap)
  : M stop unit :=
  fun t =>
    (* a [nil] map ranges like an empty one *)
    match setupKubeconfigWatches w (default ∅ buildClusterClientConfigs) t with
    | (Some err, t') =>
        (inl tt, t' ++ [E_Warningf "failed to set up kubeconfig watches: %v" err])
    | (None, t') => (inl tt, t')
    end.

(** Lines 75-78: the scan, whose error ends [run]. *)
Definition scan_step (w : World) (opt : options)
  : M stop (option BuildClusterClientConfigMap) :=
  fun t =>
    match readBuildClusterKubeConfigs w (BuildClusterKubeconfigsLocation opt) t with
    | ((_, Some err), t') =>
        (inr (Return (Errorf "unable to load build cluster configurations: %v"
                             [ArgError err])), t')
    | ((buildClusterClientConfigs, None), t') =>
        (inl buildClusterClientConfigs, t')
    end.

(** Lines 52-122: [run] up to the retry loop. *)
Definition startup (w : World) : M stop string :=
  let opt := parse_options (command_line w) in
  buildClusterClientConfigs <- scan_step w opt ;;
  watch_step w buildClusterClientConfigs ;;;
  run_from_resolver w opt buildClusterClientConfigs.

Definition run (w : World) (fuel : nat) : trace -> outcome * trace :=
  fun t =>
    match startup w t with
    | (inr s, t') => (stopped s, t')
    | (inl _, t') => bot_loop w fuel 0 t'
    end.

(** How the process ends, as far as [main] decides it: an error that
    [run] returns goes to [log.Fatal]; a panic goes through [main] as it
    went through [run]. *)
Definition main (w : World) (fuel : nat) : outcome * trace :=
  match run w fuel [] with
  | (Returned (Some err), t) => (Returned (Some err), t ++ [E_LogFatal err; E_Exit 1])
  | r => r
  end.

(** ** Concrete worlds

    Worlds to run the code in. Everything not listed as a parameter goes
    well; [path.Join] is given for a clean directory path and a plain file
    name, where it puts a slash between the two. *)

Definition no_flags : CommandLine := {|
  cli_config_resolver := None;
  cli_github_endpoint := None;
  cli_force_pr_owner := None;
  cli_build_cluster_kubeconfig := None;
  cli_build_cluster_kubeconfigs_location := None;
  cli_release_cluster_kubeconfig := None
|}.

Definition release_flag (path : string) : CommandLine := {|
  cli_config_resolver := None;
  cli_github_endpoint := None;
  cli_force_pr_owner := None;
  cli_build_cluster_kubeconfig := None;
  cli_build_cluster_kubeconfigs_location := None;
  cli_release_cluster_kubeconfig := Some path
|}.

Definition lookup_file (files : list (string * string)) (path : string)
  : string + error :=
  match list_find (λ f, f.1 = path) files with
  | Some (_, (_, contents)) => inl contents
  | None => inr (LibError "no such file or directory")
  end.

Definition stat_file (files : list (string * string)) (path : string)
  : option error :=
  match lookup_file files path with
  | inl _ => None
  | inr e => Some e
  end.

Definition demo_world (cli : CommandLine) (token : string)
    (listing : list FileInfo + error)
    (** the files of the directory at the time of the scan, and at the
        time the watches are set up: path and contents *)
    (files_scan files_watch : list (string * string))
    (newWatcher : option error)
    (release : option RestConfig * option error)
    (bot : nat -> bot_return) (retriable : error -> bool) : World := {|
  command_line := cli;
  os_Getenv name := if String.eqb name "BOT_TOKEN" then token else "";
  path_Join dir name := dir +:+ "/" +:+ name;
  ioutil_ReadDir location :=
    if String.eqb location "/var/build-cluster-kubeconfigs" then listing
    else inr (LibError "no such file or directory");
  ioutil_ReadFile := lookup_file files_scan;
  clientcmd_NewClientConfigFromBytes contents :=
    if String.eqb contents "malformed" then inr (LibError "yaml: invalid")
    else inl (ClientConfigAt (String.length contents));
  cfg_ClientConfig cfg := let 'ClientConfigAt n := cfg in inl (RestConfigAt n);
  clientset_NewForConfig c := let 'RestConfigAt n := c in inl (CoreClientsetAt n);
  imageclientset_NewForConfig c := let 'RestConfigAt n := c in inl (ImageClientsetAt n);
  projectclientset_NewForConfig c := let 'RestConfigAt n := c in inl (ProjectClientsetAt n);
  fsnotify_NewWatcher := newWatcher;
  os_Stat := stat_file files_watch;
  watcher_Add _ := None;
  range_order m := map_to_list m;
  url_Parse _ := inl (URLAt 0);
  loadKubeconfig := inl (RestConfigAt 0);
  loadKubeconfigFromFlagOrDefault path def :=
    if String.eqb path "" then (Some def, None) else release;
  isRetriable := retriable;
  manager_Start := None;
  bot_Start := bot;
  dynamic_NewForConfig _ := inl (ProwClientAt 0);
  prowconfig_ConfigAgent := inl (ConfigAgentAt 0)
|}.

Definition regular (name : string) : FileInfo := {| Name := name; IsDir := false |}.
Definition directory (name : string) : FileInfo := {| Name := name; IsDir := true |}.

Definition kubeconfigs_dir : string := "/var/build-cluster-kubeconfigs".
Definition a_path : string := "/var/build-cluster-kubeconfigs/a.kubeconfig".
Definition b_path : string := "/var/build-cluster-kubeconfigs/b.kubeconfig".

Definition bundle_at (path : string) (n : nat) : BuildClusterClientConfig := {|
  KubeconfigPath := path;
  CoreConfig := RestConfigAt n;
  CoreClient := CoreClientsetAt n;
  ProjectClient := ProjectClientsetAt n;
  TargetImageClient := ImageClientsetAt n
|}.

(** A file whose name is not of the form [<name>.kubeconfig]. *)
Definition x_path : string := "/var/build-cluster-kubeconfigs/xkubeconfig".

Definition w_stray_file : World :=
  demo_world no_flags "token"
    (inl [regular "xkubeconfig"])
    [(x_path, "some contents")]
    [(x_path, "some contents")]
    None (Some (RestConfigAt 0), None) (λ _, BotKeepsRunning) (λ _, true).

(** One valid credential file and one malformed one. *)
Definition w_valid_and_malformed : World :=
  demo_world no_flags "token"
    (inl [regular "a.kubeconfig"; regular "b.kubeconfig"])
    [(a_path, "credentials of a"); (b_path, "malformed")]
    [(a_path, "credentials of a"); (b_path, "malformed")]
    None (Some (RestConfigAt 0), None) (λ _, BotKeepsRunning) (λ _, true).

(** A file that is no credential file beside a valid credential file. *)
Definition w_notes : World :=
  demo_world no_flags "token"
    (inl [regular "notes.txt"; regular "a.kubeconfig"])
    [(a_path, "credentials of a")]
    [(a_path, "credentials of a")]
    None (Some (RestConfigAt 0), None) (λ _, BotKeepsRunning) (λ _, true).

(** Two valid credential files; the second is gone by the time the
    watches are set up. *)
Definition w_b_removed : World :=
  demo_world no_flags "token"
    (inl [regular "a.kubeconfig"; regular "b.kubeconfig"])
    [(a_path, "credentials of a"); (b_path, "credentials of bb")]
    [(a_path, "credentials of a")]
    None (Some (RestConfigAt 0), None) (λ _, BotKeepsRunning) (λ _, true).

Definition chmod_event : fsnotify_Event :=
  {| ev_Name := a_path; ev_Op := fsnotify.Chmod |}.
Definition write_event : fsnotify_Event :=
  {| ev_Name := a_path; ev_Op := fsnotify.Write |}.
Definition remove_event : fsnotify_Event :=
  {| ev_Name := a_path; ev_Op := fsnotify.Remove |}.

(** The world [w], except that the function of line 106 reports no
    error. *)
Definition ignoring_release_error (w : World) : World := {|
  command_line := command_line w;
  os_Getenv := os_Getenv w;
  path_Join := path_Join w;
  ioutil_ReadDir := ioutil_ReadDir w;
  ioutil_ReadFile := ioutil_ReadFile w;
  clientcmd_NewClientConfigFromBytes := clientcmd_NewClientConfigFromBytes w;
  cfg_ClientConfig := cfg_ClientConfig w;
  clientset_NewForConfig := clientset_NewForConfig w;
  imageclientset_NewForConfig := imageclientset_NewForConfig w;
  projectclientset_NewForConfig := projectclientset_NewForConfig w;
  fsnotify_NewWatcher := fsnotify_NewWatcher w;
  os_Stat := os_Stat w;
  watcher_Add := watcher_Add w;
  range_order := range_order w;
  url_Parse := url_Parse w;
  loadKubeconfig := loadKubeconfig w;
  loadKubeconfigFromFlagOrDefault path def :=
    ((loadKubeconfigFromFlagOrDefault w path def).1, None);
  isRetriable := isRetriable w;
  manager_Start := manager_Start w;
  bot_Start := bot_Start w;
  dynamic_NewForConfig := dynamic_NewForConfig w;
  prowconfig_ConfigAgent := prowconfig_ConfigAgent w
|}.

Definition connection_lost : error := LibError "connection lost".
Definition invalid_token : error := LibError "invalid token".

Definition retriable_demo (e : error) : bool :=
  match e with
  | LibError msg => String.eqb msg "connection lost"
  | Errorf _ _ => false
  end.

(** The bot fails twice in a way worth retrying, then for good. *)
Definition w_bot_fails_thrice : World :=
  demo_world no_flags "token" (inl []) [] [] None (Some (RestConfigAt 0), None)
    (λ n, if (n <? 2)%nat then BotReturns (Some connection_lost)
          else BotReturns (Some invalid_token))
    retriable_demo.

(** No bot token, and a directory that cannot be listed. *)
Definition w_no_token_no_directory : World :=
  demo_world no_flags "" (inr (LibError "no such file or directory")) [] []
    None (Some (RestConfigAt 0), None) (λ _, BotKeepsRunning) retriable_demo.

(** No bot token, all else well. *)
Definition w_no_token : World :=
  demo_world no_flags "" (inl [regular "a.kubeconfig"])
    [(a_path, "credentials of a")] [(a_path, "credentials of a")]
    None (Some (RestConfigAt 0), None) (λ _, BotKeepsRunning) retriable_demo.

(** The watcher cannot be made. *)
Definition w_no_watcher : World :=
  demo_world no_flags "token" (inl [regular "a.kubeconfig"])
    [(a_path, "credentials of a")] [(a_path, "credentials of a")]
    (Some (LibError "too many open files")) (Some (RestConfigAt 0), None)
    (λ _, BotKeepsRunning) retriable_demo.

(** [--release-cluster-kubeconfig] names a file that cannot be loaded:
    no configuration comes back, and an error. *)
Definition w_release_load_fails : World :=
  demo_world (release_flag "/etc/release.kubeconfig") "token" (inl []) [] []
    None (None, Some (LibError "no such file or directory"))
    (λ _, BotKeepsRunning) retriable_demo.

(** A credential file and a copy of it kept beside it. [ioutil.ReadDir]
    lists by file name, the copy after the file. *)
Definition bak_path : string := "/var/build-cluster-kubeconfigs/a.kubeconfig.bak".

Definition w_backup_file : World :=
  demo_world no_flags "token"
    (inl [regular "a.kubeconfig"; regular "a.kubeconfig.bak"])
    [(a_path, "credentials of a"); (bak_path, "an older credential")]
    [(a_path, "credentials of a"); (bak_path, "an older credential")]
    None (Some (RestConfigAt 0), None) (λ _, BotKeepsRunning) (λ _, true).

(** The world [w], with another [watcher.Add]. *)
Definition with_watcher_Add (add : string -> option error) (w : World) : World := {|
  command_line := command_line w;
  os_Getenv := os_Getenv w;
  path_Join := path_Join w;
  ioutil_ReadDir := ioutil_ReadDir w;
  ioutil_ReadFile := ioutil_ReadFile w;
  clientcmd_NewClientConfigFromBytes := clientcmd_NewClientConfigFromBytes w;
  cfg_ClientConfig := cfg_ClientConfig w;
  clientset_NewForConfig := clientset_NewForConfig w;
  imageclientset_NewForConfig := imageclientset_NewForConfig w;
  projectclientset_NewForConfig := projectclientset_NewForConfig w;
  fsnotify_NewWatcher := fsnotify_NewWatcher w;
  os_Stat := os_Stat w;
  watcher_Add := add;
  range_order := range_order w;
  url_Parse := url_Parse w;
  loadKubeconfig := loadKubeconfig w;
  loadKubeconfigFromFlagOrDefault := loadKubeconfigFromFlagOrDefault w;
  isRetriable := isRetriable w;
  manager_Start := manager_Start w;
  bot_Start := bot_Start w;
  dynamic_NewForConfig := dynamic_NewForConfig w;
  prowconfig_ConfigAgent := prowconfig_ConfigAgent w
|}.

Definition watch_limit : error := LibError "no space left on device".

(** Two valid credential files, and a watcher that takes the first but
    not the second. *)
Definition w_second_watch_fails : World :=
  with_watcher_Add
    (λ p, if String.eqb p b_path then Some watch_limit else None)
    (demo_world no_flags "token"
       (inl [regular "a.kubeconfig"; regular "b.kubeconfig"])
       [(a_path, "credentials of a"); (b_path, "credentials of bb")]
       [(a_path, "credentials of a"); (b_path, "credentials of bb")]
       None (Some (RestConfigAt 0), None) (λ _, BotKeepsRunning) (λ _, true)).

(** An event that carries [Write] and [Chmod] at once. *)
Definition write_chmod_event : fsnotify_Event :=
  {| ev_Name := a_path; ev_Op := Z.lor fsnotify.Write fsnotify.Chmod |}.

(** [--release-cluster-kubeconfig] names a file that loads. *)
Definition w_release_cluster : World :=
  demo_world (release_flag "/etc/release.kubeconfig") "token" (inl []) [] []
    None (Some (RestConfigAt 7), None) (λ _, BotKeepsRunning) retriable_demo.

(** * The vocabulary of the statements *)

(** ** Code points and file names *)

(** A byte that is not ASCII. *)
Definition high (b : ascii) : Prop := (128 <= Utf8.byte_val b)%N.

(** The shapes a decoding step can take. *)
Inductive rune_step (b0 : ascii) (s1 : string) : Prop :=
| step1 :
    Utf8.rune_width (String b0 s1) = 1%nat →
    Utf8.runes (String b0 s1) = String b0 EmptyString :: Utf8.runes s1 →
    rune_step b0 s1
| step2 b1 s2 :
    s1 = String b1 s2 → high b1 →
    Utf8.rune_width (String b0 s1) = 2%nat →
    Utf8.runes (String b0 s1) = String b0 (String b1 EmptyString) :: Utf8.runes s2 →
    rune_step b0 s1
| step3 b1 b2 s3 :
    s1 = String b1 (String b2 s3) → high b1 → high b2 →
    Utf8.rune_width (String b0 s1) = 3%nat →
    Utf8.runes (String b0 s1)
      = String b0 (String b1 (String b2 EmptyString)) :: Utf8.runes s3 →
    rune_step b0 s1
| step4 b1 b2 b3 s4 :
    s1 = String b1 (String b2 (String b3 s4)) → high b1 → high b2 → high b3 →
    Utf8.rune_width (String b0 s1) = 4%nat →
    Utf8.runes (String b0 s1)
      = String b0 (String b1 (String b2 (String b3 EmptyString))) :: Utf8.runes s4 →
    rune_step b0 s1.

(** What comes after the code points of [p] does not change them when it
    starts with an ASCII byte. *)
Definition ascii_head (q : string) : Prop :=
  match q with
  | EmptyString => True
  | String c _ => (Utf8.byte_val c < 128)%N
  end.

(** The form the specification gives for a credential file name: a
    non-empty name followed by the suffix. *)
Definition kubeconfig_form (f name : string) : Prop :=
  name ≠ EmptyString ∧ f = name +:+ ".kubeconfig".

Fixpoint contains_byte (b : ascii) (s : string) : bool :=
  match s with
  | EmptyString => false
  | String c s' => Ascii.eqb c b || contains_byte b s'
  end.

Definition newline_byte : ascii := ascii_of_nat 10.

(** A way the expression can match the code points [rs]: after [pre], the
    group takes [g], the second dot takes [c], and the literal follows;
    neither the group nor the dot takes a newline. *)
Definition matches_at (rs pre g : list string) (c : string)
    (rest : list string) : Prop :=
  rs = pre ++ g ++ c :: Regexp.literal ++ rest ∧
  Forall (λ r, Regexp.any_not_nl r = true) (g ++ [c]).

(** ** Running a piece of code

    [runs m r tr]: from any trace, [m] ends with [r] and has appended
    [tr]. All the code here is of this kind: what it does depends on the
    world, not on the calls made before. *)

Definition runs {R A} (m : M R A) (r : A + R) (tr : trace) : Prop :=
  ∀ t, m t = (r, t ++ tr).

(** A piece of code that [runs]. *)
Definition behaved {R A} (m : M R A) : Prop := ∃ r tr, runs m r tr.

(** ** The scanner *)

(** A result that is an error, or an early return. *)
Definition is_inr {A B} (r : A + B) : Prop :=
  match r with
  | inr _ => True
  | inl _ => False
  end.

(** The calls the scanner makes. *)
Definition scan_event (ev : event) : Prop :=
  match ev with
  | E_ReadDir _ | E_ReadFile _ | E_NewClientConfigFromBytes _
  | E_ClientConfig _ | E_NewCoreClient _ | E_NewImageClient _
  | E_NewProjectClient _ => True
  | _ => False
  end.

(** A step of the Bundle Builder fails on the file at [path]: reading it,
    parsing, resolving, or making one of the three clients. *)
Inductive builder_fails (w : World) (path : string) : Prop :=
| read_fails err :
    ioutil_ReadFile w path = inr err → builder_fails w path
| parse_fails contents err :
    ioutil_ReadFile w path = inl contents →
    clientcmd_NewClientConfigFromBytes w contents = inr err →
    builder_fails w path
| resolve_fails contents cfg err :
    ioutil_ReadFile w path = inl contents →
    clientcmd_NewClientConfigFromBytes w contents = inl cfg →
    cfg_ClientConfig w cfg = inr err →
    builder_fails w path
| client_fails contents cfg clusterConfig :
    ioutil_ReadFile w path = inl contents →
    clientcmd_NewClientConfigFromBytes w contents = inl cfg →
    cfg_ClientConfig w cfg = inl clusterConfig →
    (is_inr (clientset_NewForConfig w clusterConfig) ∨
     is_inr (projectclientset_NewForConfig w clusterConfig) ∨
     is_inr (imageclientset_NewForConfig w clusterConfig)) →
    builder_fails w path.

(** An entry the scanner builds a bundle for, and the name it files the
    bundle under. *)
Definition credential_entry (file : FileInfo) : Prop :=
  IsDir file = false
  ∧ is_Some (reBuildClusterName_FindStringSubmatch (Name file)).

#[global] Instance credential_entry_dec file : Decision (credential_entry file).
Proof. unfold credential_entry. apply _. Defined.

Definition cluster_name (file : FileInfo) : string :=
  match reBuildClusterName_FindStringSubmatch (Name file) with
  | Some (_, m1) => m1
  | None => EmptyString
  end.

(** The entries whose bundle cannot be built. *)
Definition entry_fails (w : World) (location : string) (file : FileInfo)
  : Prop :=
  credential_entry file ∧ builder_fails w (path_Join w location (Name file)).

(** Where the bundles of a map come from: each was in [m0] already or was
    built for a credential entry of [files], from the file at the joined
    path. *)
Definition bundles_from (w : World) (location : string)
    (files : list FileInfo) (m0 m : BuildClusterClientConfigMap) : Prop :=
  ∀ name b, m !! name = Some b →
    m0 !! name = Some b ∨
    ∃ file, file ∈ files ∧ credential_entry file ∧ name = cluster_name file ∧
            KubeconfigPath b = path_Join w location (Name file).

(** ** The watches *)

(** The bundle's file is there when the watches are set up. *)
Definition present (w : World) (c : string * BuildClusterClientConfig) : Prop :=
  os_Stat w (KubeconfigPath c.2) = None.

#[global] Instance present_dec w c : Decision (present w c).
Proof. unfold present. apply _. Defined.

(** The calls of the loop over [clusters], with what they are made on. *)
Definition watch_call (w : World)
    (clusters : list (string * BuildClusterClientConfig)) (ev : event) : Prop :=
  match ev with
  | E_Stat p e =>
      e = os_Stat w p ∧ ∃ c, c ∈ clusters ∧ p = KubeconfigPath c.2
  | E_WatcherAdd p e =>
      e = watcher_Add w p ∧ os_Stat w p = None ∧
      ∃ c, c ∈ clusters ∧ p = KubeconfigPath c.2
  | _ => False
  end.

(** The calls the watch set-up makes. *)
Definition watch_event (ev : event) : Prop :=
  match ev with
  | E_NewWatcher | E_Stat _ _ | E_WatcherAdd _ _ | E_GoEventLoop => True
  | _ => False
  end.

(** ** The start-up sequence and the retry loop *)

(** A return of [bot.Start] that the loop answers with a pause and another
    start: [nil], or an error [isRetriable] accepts. *)
Definition retried (w : World) (r : bot_return) : Prop :=
  r = BotReturns None ∨ ∃ e, r = BotReturns (Some e) ∧ isRetriable w e = true.

(** [k] rounds of the loop from the [n]-th start on: a start, then a pause
    of five seconds. *)
Fixpoint rounds (n k : nat) : trace :=
  match k with
  | O => []
  | S k' => E_BotStart n :: E_Sleep (5 * time_Second) :: rounds (S n) k'
  end.

(** The error of line 92. *)
Definition token_missing : error :=
  Errorf "the environment variable BOT_TOKEN must be set" [].

(** The calls [run] makes before it has looked at the bot token. *)
Definition before_token (ev : event) : Prop :=
  match ev with
  | E_ReadDir _ | E_ReadFile _ | E_NewClientConfigFromBytes _
  | E_ClientConfig _ | E_NewCoreClient _ | E_NewImageClient _
  | E_NewProjectClient _
  | E_NewWatcher | E_Stat _ _ | E_WatcherAdd _ _ | E_GoEventLoop
  | E_Warningf _ _ | E_UrlParse _ | E_Getenv _ => True
  | _ => False
  end.

(** What line 81 logs after the watch set-up. *)
Definition watch_warning (r : option error) : trace :=
  match r with
  | Some err => [E_Warningf "failed to set up kubeconfig watches: %v" err]
  | None => []
  end.

(** C6 as the claim states it: with no bot token, [run] returns the
    missing-token error and has not listed the directory. *)
Definition C6_as_stated (w : World) (fuel : nat) : Prop :=
  os_Getenv w "BOT_TOKEN" = "" →
  ∃ tr, run w fuel [] = (Returned (Some token_missing), tr) ∧
        ∀ location, E_ReadDir location ∉ tr.

(** ** The scanner, call by call *)

(** The error a call came back with, if any. *)
Definition err_of {A} (r : A + error) : option error :=
  match r with
  | inl _ => None
  | inr e => Some e
  end.

(** What a call of the scanner gives in the world: [Some None] when it
    succeeds, [Some (Some e)] when it fails with [e]. *)
Definition call_result (w : World) (ev : event) : option (option error) :=
  match ev with
  | E_ReadDir location => Some (err_of (ioutil_ReadDir w location))
  | E_ReadFile path => Some (err_of (ioutil_ReadFile w path))
  | E_NewClientConfigFromBytes contents =>
      Some (err_of (clientcmd_NewClientConfigFromBytes w contents))
  | E_ClientConfig cfg => Some (err_of (cfg_ClientConfig w cfg))
  | E_NewCoreClient c => Some (err_of (clientset_NewForConfig w c))
  | E_NewImageClient c => Some (err_of (imageclientset_NewForConfig w c))
  | E_NewProjectClient c => Some (err_of (projectclientset_NewForConfig w c))
  | _ => None
  end.

Definition call_ok (w : World) (ev : event) : Prop :=
  call_result w ev = Some None.

(** The format of the error the scanner returns when a call fails. *)
Definition scan_format (ev : event) : string :=
  match ev with
  | E_ReadDir _ => "unable to access location %q: %v"
  | E_ReadFile _ => "unable to access kubeconfig %q: %v"
  | E_NewClientConfigFromBytes _ => "could not load build client configuration: %v"
  | E_ClientConfig _ => "could not load cluster configuration: %v"
  | E_NewCoreClient _ => "unable to create core client: %v"
  | E_NewImageClient _ => "unable to create target image client: %v"
  | E_NewProjectClient _ => "unable to create project client: %v"
  | _ => EmptyString
  end.

(** A trace that ends with the first call that failed, and the error made
    of it: the format of the step, and the error of the call as the last
    argument. *)
Definition scan_failure (w : World) (tr : trace) (err : error) : Prop :=
  ∃ pre ev e args,
    tr = pre ++ [ev] ∧ Forall (call_ok w) pre ∧
    call_result w ev = Some (Some e) ∧
    err = Errorf (scan_format ev) (args ++ [ArgError e]).

(** The files a trace shows as read. *)
Fixpoint reads (t : trace) : list string :=
  match t with
  | [] => []
  | E_ReadFile p :: t' => p :: reads t'
  | _ :: t' => reads t'
  end.

(** A bundle that hangs together: the configuration comes from the file at
    the bundle's path, and each of the three clients was made from that
    configuration by the constructor of its kind. *)
Definition bundle_built (w : World) (b : BuildClusterClientConfig) : Prop :=
  ∃ contents cfg,
    ioutil_ReadFile w (KubeconfigPath b) = inl contents ∧
    clientcmd_NewClientConfigFromBytes w contents = inl cfg ∧
    cfg_ClientConfig w cfg = inl (CoreConfig b) ∧
    clientset_NewForConfig w (CoreConfig b) = inl (CoreClient b) ∧
    imageclientset_NewForConfig w (CoreConfig b) = inl (TargetImageClient b) ∧
    projectclientset_NewForConfig w (CoreConfig b) = inl (ProjectClient b).

(** No later entry of the listing is filed under the name of [f]. *)
Definition last_of_its_name (f : FileInfo) (later : list FileInfo) : Prop :=
  Forall (λ g, credential_entry g → cluster_name g ≠ cluster_name f) later.

(** ** The start-up, step by step *)

(** What lines 84-115 need to get to the Job Manager: the resolver URL,
    a bot token, the ambient configuration, the prow client, a
    configuration of the release cluster that is not nil, the image client
    made from it and the configuration agent. The error of line 106 is no
    part of it. *)
Definition resolver_inputs (w : World) (opt : options) (u : URL)
    (c : RestConfig) (prow : ProwClient) (image : ImageClientset)
    (agent : ConfigAgent) : Prop :=
  url_Parse w (ConfigResolver opt) = inl u ∧
  os_Getenv w "BOT_TOKEN" ≠ EmptyString ∧
  loadKubeconfig w = inl c ∧
  dynamic_NewForConfig w c = inl prow ∧
  (∃ releaseConfig,
     (loadKubeconfigFromFlagOrDefault w (ReleaseClusterKubeconfig opt) c).1
     = Some releaseConfig ∧
     imageclientset_NewForConfig w releaseConfig = inl image) ∧
  prowconfig_ConfigAgent w = inl agent.

(** The calls of lines 84-115 before the Job Manager is made. *)
Definition early_event (ev : event) : Prop :=
  match ev with
  | E_UrlParse _ | E_Getenv _ | E_LoadKubeconfig | E_DynamicNewForConfig _
  | E_LoadKubeconfigFromFlagOrDefault _ _ | E_NewImageClient _
  | E_NewImageClientNil | E_ConfigAgent => True
  | _ => False
  end.

(** The calls of the retry loop. *)
Definition loop_event (ev : event) : Prop :=
  match ev with
  | E_BotStart _ | E_Sleep _ => True
  | _ => False
  end.

(** The calls of [run] up to the resolver URL: the scan, the watch set-up
    and its warning. *)
Definition prelude_event (ev : event) : Prop :=
  match ev with
  | E_Warningf _ _ => True
  | _ => scan_event ev ∨ watch_event ev
  end.

(** [run] gets to the Job Manager with these arguments. *)
Definition reaches_manager (w : World) (agent : ConfigAgent) (u : URL)
    (prow : ProwClient) (image : ImageClientset)
    (m : BuildClusterClientConfigMap) : Prop :=
  let opt := parse_options (command_line w) in
  ∃ t1 c,
    readBuildClusterKubeConfigs w (BuildClusterKubeconfigsLocation opt) []
    = ((Some m, None), t1) ∧
    resolver_inputs w opt u c prow image agent.

(** * Properties *)

(** ** Code points *)

Section Utf8_facts.
Import Utf8.

Lemma first_spec b0 sz lo hi :
  first b0 = Some (sz, (lo, hi)) →
  (128 <= lo)%N ∧ (sz = 2 ∨ sz = 3 ∨ sz = 4)%nat.
Proof.
  unfold first, locb, hicb. intros H.
  repeat case_match; simplify_eq; lia.
Qed.

Lemma in_range_high lo hi b :
  (128 <= lo)%N → in_range lo hi b = true → high b.
Proof.
  unfold in_range, high. intros Hlo H.
  apply andb_true_iff in H as [H _]. apply N.leb_le in H. lia.
Qed.

Lemma runes_eq b0 s1 :
  runes (String b0 s1) =
    match rune_width (String b0 s1), s1 with
    | 2%nat, String b1 s2 =>
        String b0 (String b1 EmptyString) :: runes s2
    | 3%nat, String b1 (String b2 s3) =>
        String b0 (String b1 (String b2 EmptyString)) :: runes s3
    | 4%nat, String b1 (String b2 (String b3 s4)) =>
        String b0 (String b1 (String b2 (String b3 EmptyString))) :: runes s4
    | _, _ => String b0 EmptyString :: runes s1
    end.
Proof. reflexivity. Qed.

Lemma rune_width_cases b0 s1 :
  rune_width (String b0 s1) = 1%nat ∨
  (∃ b1 s2, s1 = String b1 s2 ∧ high b1 ∧ rune_width (String b0 s1) = 2%nat) ∨
  (∃ b1 b2 s3, s1 = String b1 (String b2 s3) ∧ high b1 ∧ high b2 ∧
               rune_width (String b0 s1) = 3%nat) ∨
  (∃ b1 b2 b3 s4, s1 = String b1 (String b2 (String b3 s4)) ∧
               high b1 ∧ high b2 ∧ high b3 ∧
               rune_width (String b0 s1) = 4%nat).
Proof.
  unfold rune_width.
  destruct (first b0) as [[sz [lo hi]]|] eqn:Hf; [|by left].
  apply first_spec in Hf as [Hlo Hsz].
  destruct s1 as [|b1 s2]; [by left|].
  destruct (in_range lo hi b1) eqn:H1; simpl; [|by left].
  apply (in_range_high _ _ _ Hlo) in H1.
  destruct (sz <=? 2)%nat eqn:H2; [right; left; eauto|].
  destruct s2 as [|b2 s3]; [by left|].
  destruct (in_range locb hicb b2) eqn:H3; simpl; [|by left].
  apply in_range_high in H3; [|unfold locb; lia].
  destruct (sz <=? 3)%nat eqn:H4; [right; right; left; eauto 10|].
  destruct s3 as [|b3 s4]; [by left|].
  destruct (in_range locb hicb b3) eqn:H5; simpl; [|by left].
  apply in_range_high in H5; [|unfold locb; lia].
  right; right; right. eauto 12.
Qed.

Lemma rune_step_total b0 s1 : rune_step b0 s1.
Proof.
  destruct (rune_width_cases b0 s1)
    as [H|[(b1&s2&->&?&H)|[(b1&b2&s3&->&?&?&H)|(b1&b2&b3&s4&->&?&?&?&H)]]].
  - apply step1; [done|]. rewrite runes_eq, H. by destruct s1.
  - eapply step2; eauto. by rewrite runes_eq, H.
  - eapply step3; eauto. by rewrite runes_eq, H.
  - eapply step4; eauto. by rewrite runes_eq, H.
Qed.

(** Induction along the decoding: it is enough to step over one code point
    at a time. *)
Lemma rune_ind (P : string → Prop) :
  P EmptyString →
  (∀ b0 s1, rune_step b0 s1 →
     (∀ s', (String.length s' <= String.length s1)%nat → P s') →
     P (String b0 s1)) →
  ∀ s, P s.
Proof.
  intros H0 Hstep s.
  remember (String.length s) as n eqn:Hn.
  assert (Hle : (String.length s <= n)%nat) by lia. clear Hn.
  revert s Hle. induction n as [|n IH]; intros s Hle.
  - destruct s; [done|simpl in Hle; lia].
  - destruct s as [|b0 s1]; [done|]. simpl in Hle.
    apply Hstep; [apply rune_step_total|].
    intros s' Hs'. apply IH. lia.
Qed.

Lemma unrunes_runes s : unrunes (runes s) = s.
Proof.
  induction s as [|b0 s1 Hst IH] using rune_ind; [done|].
  destruct Hst as [_ ->| b1 s2 -> _ _ -> | b1 b2 s3 -> _ _ _ ->
                  | b1 b2 b3 s4 -> _ _ _ _ ->]; simpl;
    rewrite IH; simpl; try done; lia.
Qed.

Lemma append_nil_l (t : string) : EmptyString +:+ t = t.
Proof. reflexivity. Qed.

Lemma append_cons b s t : String b s +:+ t = String b (s +:+ t).
Proof. reflexivity. Qed.

Lemma append_assoc (s t u : string) : (s +:+ t) +:+ u = s +:+ (t +:+ u).
Proof.
  induction s as [|b s IH]; [done|]. by rewrite !append_cons, IH.
Qed.

Lemma unrunes_app rs1 rs2 :
  unrunes (rs1 ++ rs2) = unrunes rs1 +:+ unrunes rs2.
Proof.
  induction rs1 as [|r rs1 IH]; simpl; [done|].
  by rewrite IH, append_assoc.
Qed.

Lemma rune_width_app b0 p1 q :
  ascii_head q →
  rune_width (String b0 (p1 +:+ q)) = rune_width (String b0 p1).
Proof.
  intros Hq.
  assert (Hout : ∀ lo hi, (128 <= lo)%N →
            match q with
            | EmptyString => True
            | String c _ => in_range lo hi c = false
            end).
  { intros lo hi Hlo. destruct q as [|c q']; [done|]. simpl in Hq.
    unfold in_range. apply andb_false_iff. left. apply N.leb_gt. lia. }
  unfold rune_width.
  destruct (first b0) as [[sz [lo hi]]|] eqn:Hf; [|done].
  apply first_spec in Hf as [Hlo Hsz].
  assert (Hcb : (128 <= locb)%N) by (unfold locb; lia).
  destruct p1 as [|b1 [|b2 [|b3 p4]]];
    rewrite ?append_cons, ?append_nil_l; simpl.
  - specialize (Hout lo hi Hlo). destruct q; [done|]. by rewrite Hout.
  - destruct (in_range lo hi b1); simpl; [|done].
    destruct (sz <=? 2)%nat; [done|].
    specialize (Hout locb hicb Hcb). destruct q; [done|]. by rewrite Hout.
  - destruct (in_range lo hi b1); simpl; [|done].
    destruct (sz <=? 2)%nat; [done|].
    destruct (in_range locb hicb b2); simpl; [|done].
    destruct (sz <=? 3)%nat; [done|].
    specialize (Hout locb hicb Hcb). destruct q; [done|]. by rewrite Hout.
  - done.
Qed.

Lemma runes_app p q :
  ascii_head q → runes (p +:+ q) = runes p ++ runes q.
Proof.
  intros Hq.
  induction p as [|b0 p1 Hst IH] using rune_ind; [done|].
  change (String b0 p1 +:+ q) with (String b0 (p1 +:+ q)).
  rewrite runes_eq, rune_width_app by done.
  destruct Hst as [Hw ->| b1 s2 -> _ Hw -> | b1 b2 s3 -> _ _ Hw ->
                  | b1 b2 b3 s4 -> _ _ _ Hw ->]; rewrite Hw; simpl.
  - rewrite <- IH by done. by destruct (p1 +:+ q).
  - rewrite IH; [done|simpl; lia].
  - rewrite IH; [done|simpl; lia].
  - rewrite IH; [done|simpl; lia].
Qed.

End Utf8_facts.

(** ** The matcher *)

Section Matcher_facts.
Import Utf8 Regexp.

Lemma length_append (s t : string) :
  String.length (s +:+ t) = (String.length s + String.length t)%nat.
Proof.
  induction s as [|b s IH]; [done|]. rewrite append_cons. simpl. by rewrite IH.
Qed.

Lemma runes_not_newline p :
  contains_byte newline_byte p = false →
  Forall (λ r, any_not_nl r = true) (runes p).
Proof.
  induction p as [|b0 p1 Hst IH] using rune_ind; intros Hp; [by constructor|].
  simpl in Hp. apply orb_false_iff in Hp as [Hb0 Hp1].
  destruct Hst as [_ ->| b1 s2 -> _ _ -> | b1 b2 s3 -> _ _ _ ->
                  | b1 b2 b3 s4 -> _ _ _ _ ->].
  - constructor; [|by apply IH].
    unfold any_not_nl, newline. simpl. fold newline_byte. by rewrite Hb0.
  - simpl in Hp1. apply orb_false_iff in Hp1 as [_ Hp1].
    constructor; [|apply IH; [simpl; lia|done]].
    unfold any_not_nl, newline. simpl. by destruct (Ascii.eqb b0 _).
  - simpl in Hp1.
    apply orb_false_iff in Hp1 as [_ Hp1]. apply orb_false_iff in Hp1 as [_ Hp1].
    constructor; [|apply IH; [simpl; lia|done]].
    unfold any_not_nl, newline. simpl. by destruct (Ascii.eqb b0 _).
  - simpl in Hp1.
    apply orb_false_iff in Hp1 as [_ Hp1]. apply orb_false_iff in Hp1 as [_ Hp1].
    apply orb_false_iff in Hp1 as [_ Hp1].
    constructor; [|apply IH; [simpl; lia|done]].
    unfold any_not_nl, newline. simpl. by destruct (Ascii.eqb b0 _).
Qed.

Lemma match_here_eq r rs' :
  match_here (r :: rs') =
    let stop :=
      match after_group (r :: rs') with
      | Some t => Some (t, [])
      | None => None
      end in
    if any_not_nl r then
      match match_here rs' with
      | Some (m0, m1) => Some (r :: m0, r :: m1)
      | None => stop
      end
    else stop.
Proof. reflexivity. Qed.

Lemma find_hit rs m : match_here rs = Some m → find rs = Some m.
Proof. intros H. destruct rs; simpl in *; by rewrite H. Qed.

(** On a line that ends with a full stop and the literal, the star takes
    everything before the full stop. *)
Lemma match_here_suffix rp :
  Forall (λ r, any_not_nl r = true) rp →
  match_here (rp ++ "." :: literal) = Some (rp ++ "." :: literal, rp).
Proof.
  induction 1 as [|r rp Hr _ IH]; [by vm_compute|].
  change ((r :: rp) ++ "." :: literal) with (r :: (rp ++ "." :: literal)).
  rewrite match_here_eq. cbv zeta. by rewrite Hr, IH.
Qed.

(** What the expression does on a name of the specified form, as long as
    the name holds no newline: it matches, and group 1 is the name. The name
    may be empty. *)
Lemma FindStringSubmatch_suffix name :
  contains_byte newline_byte name = false →
  reBuildClusterName_FindStringSubmatch (name +:+ ".kubeconfig")
    = Some (name +:+ ".kubeconfig", name).
Proof.
  intros Hnl. unfold reBuildClusterName_FindStringSubmatch.
  rewrite runes_app by (simpl; unfold byte_val; simpl; lia).
  change (runes ".kubeconfig") with ("." :: literal).
  rewrite (find_hit _ _ (match_here_suffix _ (runes_not_newline _ Hnl))).
  rewrite unrunes_app, unrunes_runes. done.
Qed.

(** What the expression accepts, in general: it matches exactly when some
    code point other than the newline stands right before the literal. *)
Lemma has_prefix_spec lit rs :
  has_prefix lit rs = true ↔ ∃ rest, rs = lit ++ rest.
Proof.
  revert rs. induction lit as [|c lit IH]; intros rs; simpl.
  { split; [eauto|done]. }
  destruct rs as [|r rs]; [split; [done|by intros [? ?]]|].
  rewrite andb_true_iff, String.eqb_eq, IH. split.
  - intros [-> [rest ->]]. eauto.
  - intros [rest [= -> ->]]. eauto.
Qed.

Lemma match_here_sound rs m0 m1 :
  match_here rs = Some (m0, m1) →
  ∃ c rest, rs = m0 ++ rest ∧ m0 = m1 ++ c :: literal ∧
            any_not_nl c = true ∧ Forall (λ r, any_not_nl r = true) m1.
Proof.
  revert m0 m1. induction rs as [|r rs IH]; intros m0 m1; [done|].
  rewrite match_here_eq. cbv zeta.
  assert (Hstop :
    match after_group (r :: rs) with
    | Some t => Some (t, [])
    | None => None
    end = Some (m0, m1) →
    ∃ c rest, r :: rs = m0 ++ rest ∧ m0 = m1 ++ c :: literal ∧
              any_not_nl c = true ∧ Forall (λ r, any_not_nl r = true) m1).
  { unfold after_group.
    destruct (any_not_nl r && has_prefix literal rs) eqn:H; [|done].
    apply andb_true_iff in H as [Hr [rest ->]%has_prefix_spec].
    intros [= <- <-]. exists r, rest. by split_and!. }
  destruct (any_not_nl r) eqn:Hr; [|done].
  destruct (match_here rs) as [[m0' m1']|]; [|done].
  intros [= <- <-].
  destruct (IH _ _ eq_refl) as (c & rest & -> & -> & Hc & Hm1).
  exists c, rest. split_and!; try done. by constructor.
Qed.

Lemma find_sound rs m0 m1 :
  find rs = Some (m0, m1) →
  ∃ pre c rest, rs = pre ++ m0 ++ rest ∧ m0 = m1 ++ c :: literal ∧
                any_not_nl c = true ∧ Forall (λ r, any_not_nl r = true) m1.
Proof.
  induction rs as [|r rs IH]; [done|].
  cbn [find]. destruct (match_here (r :: rs)) as [[m0' m1']|] eqn:Hm.
  - intros [= -> ->].
    destruct (match_here_sound _ _ _ Hm) as (c & rest & ? & ? & ? & ?).
    by exists [], c, rest.
  - intros H. destruct (IH H) as (pre & c & rest & -> & ? & ? & ?).
    by exists (r :: pre), c, rest.
Qed.

Lemma find_complete rs :
  is_Some (find rs) ↔
  ∃ pre c rest, rs = pre ++ c :: literal ++ rest ∧ any_not_nl c = true.
Proof.
  split.
  - intros [[m0 m1] H].
    destruct (find_sound _ _ _ H) as (pre & c & rest & -> & -> & Hc & _).
    exists (pre ++ m1), c, rest. split; [|done]. by rewrite <- !app_assoc.
  - intros (pre & c & rest & -> & Hc).
    assert (Hhere : is_Some (match_here (c :: literal ++ rest))).
    { rewrite match_here_eq. cbv zeta. rewrite Hc.
      assert (Hag : after_group (c :: literal ++ rest) = Some (c :: literal)).
      { unfold after_group. rewrite Hc.
        by rewrite (proj2 (has_prefix_spec literal _) (ex_intro _ rest eq_refl)). }
      rewrite Hag. by destruct (match_here (literal ++ rest)) as [[]|]. }
    induction pre as [|r pre IH].
    + destruct Hhere as [m Hm]. cbn [app]. by rewrite (find_hit _ _ Hm).
    + cbn [app find]. by destruct (match_here (r :: pre ++ _)).
Qed.

(** The same for a file name: when the expression matches, the match is
    somewhere in the name, and it is group 1, one more code point, and the
    literal. *)
Lemma FindStringSubmatch_sound s m0 m1 :
  reBuildClusterName_FindStringSubmatch s = Some (m0, m1) →
  ∃ pre c post, s = pre +:+ m0 +:+ post ∧ m0 = m1 +:+ c +:+ "kubeconfig" ∧
                c ≠ EmptyString ∧ c ≠ newline.
Proof.
  unfold reBuildClusterName_FindStringSubmatch.
  destruct (find (runes s)) as [[r0 r1]|] eqn:Hf; [|done].
  intros [= <- <-].
  destruct (find_sound _ _ _ Hf) as (pre & c & rest & Hs & -> & Hc & _).
  exists (unrunes pre), c, (unrunes rest).
  split_and!.
  - by rewrite <- (unrunes_runes s), Hs, !unrunes_app.
  - rewrite unrunes_app. done.
  - intros ->.
    assert (Hin : EmptyString ∈ runes s).
    { rewrite Hs, !elem_of_app, elem_of_cons. right; left; right. by left. }
    clear -Hin. induction s as [|b0 s1 Hst IH] using rune_ind.
    { by apply elem_of_nil in Hin. }
    destruct Hst as [_ Hr| b1 s2 -> _ _ Hr | b1 b2 s3 -> _ _ _ Hr
                    | b1 b2 b3 s4 -> _ _ _ _ Hr];
      rewrite Hr in Hin; apply elem_of_cons in Hin as [?|Hin]; try done;
      apply IH in Hin; try done; simpl; lia.
  - intros ->. by vm_compute in Hc.
Qed.

End Matcher_facts.

(** C1 (the code departs from it). The claim: the matcher matches [f] if and
    only if [f] is a non-empty name followed by [.kubeconfig], and then
    extracts that name. The expression of line 32 has an unescaped dot and no
    anchors: it accepts [xkubeconfig] and [.kubeconfig] with the empty name,
    and [a.kubeconfig.bak] with the name [a]; none of the three is of the
    specified form. A directory that holds the regular file [xkubeconfig]
    is scanned into a map with a bundle under the empty cluster name. *)
Theorem C1_matcher_accepts_names_outside_the_form :
  reBuildClusterName_FindStringSubmatch "xkubeconfig" = Some ("xkubeconfig", "")
  ∧ (∀ name, ¬ kubeconfig_form "xkubeconfig" name)
  ∧ reBuildClusterName_FindStringSubmatch ".kubeconfig" = Some (".kubeconfig", "")
  ∧ (∀ name, ¬ kubeconfig_form ".kubeconfig" name)
  ∧ reBuildClusterName_FindStringSubmatch "a.kubeconfig.bak" = Some ("a.kubeconfig", "a")
  ∧ (∀ name, ¬ kubeconfig_form "a.kubeconfig.bak" name)
  ∧ (readBuildClusterKubeConfigs w_stray_file kubeconfigs_dir []).1
    = (Some {[ "" := bundle_at x_path 13 ]}, None).
Proof.
  split_and!; try by vm_compute.
  - intros name [Hne H]. apply (f_equal String.length) in H.
    rewrite length_append in H. simpl in H. destruct name; [done|simpl in H; lia].
  - intros name [Hne H]. apply (f_equal String.length) in H.
    rewrite length_append in H. simpl in H. destruct name; [done|simpl in H; lia].
  - intros name [Hne H].
    do 6 (destruct name as [|? name]; [by vm_compute in H|]).
    apply (f_equal String.length) in H.
    rewrite !append_cons in H. simpl in H.
    rewrite length_append in H. simpl in H. lia.
Qed.

Section Monad_facts.
Context {R : Type}.

Lemma runs_ret {A} (a : A) : runs (R:=R) (ret a) (inl a) [].
Proof. intros t. unfold ret. by rewrite app_nil_r. Qed.

Lemma runs_return {A} (r : R) : runs (A:=A) (return_ r) (inr r) [].
Proof. intros t. unfold return_. by rewrite app_nil_r. Qed.

Lemma runs_perform {A} ev (a : A) : runs (R:=R) (perform ev a) (inl a) [ev].
Proof. by intros t. Qed.

Lemma runs_call_ok {A} ev (res : A + error) (wrap : error → R) a :
  res = inl a → runs (call ev res wrap) (inl a) [ev].
Proof. by intros -> t. Qed.

Lemma runs_call_err {A} ev (res : A + error) (wrap : error → R) err :
  res = inr err → runs (call ev res wrap) (inr (wrap err)) [ev].
Proof. by intros -> t. Qed.

Lemma runs_call {A} ev (res : A + error) (wrap : error → R) :
  runs (call ev res wrap)
       (match res with inl a => inl a | inr err => inr (wrap err) end) [ev].
Proof. intros t. unfold call. by destruct res. Qed.

Lemma runs_bind {A B} (m : M R A) (k : A → M R B) a tr1 r tr2 :
  runs m (inl a) tr1 → runs (k a) r tr2 → runs (bind m k) r (tr1 ++ tr2).
Proof.
  intros Hm Hk t. unfold bind. by rewrite Hm, Hk, app_assoc.
Qed.

Lemma runs_bind_err {A B} (m : M R A) (k : A → M R B) e tr :
  runs m (inr e) tr → runs (bind m k) (inr e) tr.
Proof. intros Hm t. unfold bind. by rewrite Hm. Qed.

Lemma runs_trace_eq {A} (m : M R A) r tr tr' :
  runs m r tr → tr = tr' → runs m r tr'.
Proof. by intros H <-. Qed.

Lemma runs_det {A} (m : M R A) r1 tr1 r2 tr2 :
  runs m r1 tr1 → runs m r2 tr2 → r1 = r2 ∧ tr1 = tr2.
Proof.
  intros H1 H2. specialize (H1 []). specialize (H2 []).
  rewrite H1 in H2. by simplify_eq/=.
Qed.

End Monad_facts.

(** In a concrete world: runs the calls one after the other. *)
Ltac run_calls :=
  eapply runs_trace_eq;
  [ repeat (eapply runs_bind;
            [ first [ apply runs_call_ok; vm_compute; reflexivity
                    | apply runs_perform ]
            | cbv beta ]);
    apply runs_ret
  | reflexivity ].

(** ** The scanner *)

Section Scanner_facts.
Context (w : World) (location : string).

Ltac step_call :=
  eapply runs_bind; [by apply runs_call_ok|]; simpl.

Ltac stop_call :=
  apply runs_bind_err; intros ?; unfold call;
  try match goal with H : ?x = inr _ |- context [?x] => rewrite H end;
  reflexivity.

Lemma build_bundle_total fullPath name :
  ∃ r tr, runs (build_bundle w fullPath name) r tr ∧ Forall scan_event tr ∧
          (∀ b, r = inl b → KubeconfigPath b = fullPath) ∧
          (builder_fails w fullPath ↔ is_inr r) ∧
          (∀ results, r = inr results → ∃ err, results = (None, Some err)).
Proof.
  unfold build_bundle.
  destruct (ioutil_ReadFile w fullPath) as [contents|e] eqn:H1.
  2:{ eexists _, _. split; [stop_call|].
      split_and!; [by repeat constructor|done| |intros ? [= <-]; eauto].
      split; [done|]. intros _. by eapply read_fails. }
  destruct (clientcmd_NewClientConfigFromBytes w contents) as [cfg|e] eqn:H2.
  2:{ eexists _, _. split; [step_call; stop_call|].
      split_and!; [by repeat constructor|done| |intros ? [= <-]; eauto].
      split; [done|]. intros _. by eapply parse_fails. }
  destruct (cfg_ClientConfig w cfg) as [c|e] eqn:H3.
  2:{ eexists _, _. split; [do 2 step_call; stop_call|].
      split_and!; [by repeat constructor|done| |intros ? [= <-]; eauto].
      split; [done|]. intros _. by eapply resolve_fails. }
  destruct (clientset_NewForConfig w c) as [core|e] eqn:H4.
  2:{ eexists _, _. split; [do 3 step_call; stop_call|].
      split_and!; [by repeat constructor|done| |intros ? [= <-]; eauto].
      split; [done|]. intros _. eapply client_fails; eauto. left. by rewrite H4. }
  destruct (imageclientset_NewForConfig w c) as [image|e] eqn:H5.
  2:{ eexists _, _. split; [do 4 step_call; stop_call|].
      split_and!; [by repeat constructor|done| |intros ? [= <-]; eauto].
      split; [done|]. intros _. eapply client_fails; eauto.
      right; right. by rewrite H5. }
  destruct (projectclientset_NewForConfig w c) as [project|e] eqn:H6.
  2:{ eexists _, _. split; [do 5 step_call; stop_call|].
      split_and!; [by repeat constructor|done| |intros ? [= <-]; eauto].
      split; [done|]. intros _. eapply client_fails; eauto.
      right; left. by rewrite H6. }
  eexists _, _. split; [do 6 step_call; apply runs_ret|].
  split_and!; [by repeat constructor|by intros b [= <-]| |done].
  split; [|by inversion 1].
  intros [e He|? e He1 He2|? ? e He1 He2 He3|? ? ? He1 He2 He3 He4];
    repeat match goal with
           | H : ?x = inl _, H' : ?x = _ |- _ => rewrite H in H'; simplify_eq
           end.
  rewrite H4, H5, H6 in He4. by destruct He4 as [[]|[[]|[]]].
Qed.

Lemma scan_entry_ignored file m :
  ¬ credential_entry file → scan_entry w location file m = ret m.
Proof.
  unfold credential_entry, scan_entry. intros H.
  destruct (IsDir file); [done|].
  destruct (reBuildClusterName_FindStringSubmatch (Name file)) as [[]|]; [|done].
  destruct H. eauto.
Qed.

Lemma scan_entry_credential file m :
  credential_entry file →
  scan_entry w location file m =
    (bundle <- build_bundle w (path_Join w location (Name file)) (Name file) ;;
     ret (<[ cluster_name file := bundle ]> m)).
Proof.
  unfold credential_entry, scan_entry, cluster_name. intros [-> [[m0 m1] ->]].
  done.
Qed.

Lemma scan_entries_total files m0 :
  ∃ r tr, runs (scan_entries w location files m0) r tr ∧
    Forall scan_event tr ∧
    (is_inr r ↔ Exists (entry_fails w location) files) ∧
    (∀ m, r = inl m →
       dom m = dom m0 ∪ list_to_set (cluster_name <$> filter credential_entry files) ∧
       bundles_from w location files m0 m) ∧
    (∀ results, r = inr results → ∃ err, results = (None, Some err)).
Proof.
  revert m0. induction files as [|file files IH]; intros m0.
  { eexists _, _. split; [apply runs_ret|]. split_and!; [done| | |done].
    - split; [done|]. by rewrite Exists_nil.
    - intros m Hm. simplify_eq. split; [|by intros ???; left].
      by rewrite filter_nil, fmap_nil, list_to_set_nil, (right_id_L ∅ (∪)). }
  cbn [scan_entries].
  destruct (decide (credential_entry file)) as [Hc|Hc].
  2:{ rewrite scan_entry_ignored by done.
      destruct (IH m0) as (r & tr & Hr & Htr & Hfail & Hok & Hnil).
      exists r, tr. split.
      { apply (runs_bind _ _ _ [] _ _ (runs_ret m0) Hr). }
      split_and!; [done| | |done].
      - rewrite Hfail, Exists_cons. unfold entry_fails at 2. tauto.
      - intros m ->. destruct (Hok m eq_refl) as [Hdom Hfrom].
        rewrite filter_cons_False by done. split; [done|].
        intros name b Hb. destruct (Hfrom name b Hb) as [?|(f&?&?&?&?)];
          [by left|right]. exists f. by rewrite elem_of_cons; eauto. }
  rewrite scan_entry_credential by done.
  destruct (build_bundle_total (path_Join w location (Name file)) (Name file))
    as (rb & trb & Hrb & Htrb & Hpath & Hbf & Hbnil).
  destruct rb as [b|e].
  2:{ eexists _, trb. split.
      { do 2 apply runs_bind_err. exact Hrb. }
      split_and!; [done| |done|].
      - split; [intros _|done]. apply Exists_cons_hd. split; [done|]. by apply Hbf.
      - intros ? [= <-]. by apply Hbnil. }
  destruct (IH (<[cluster_name file := b]> m0))
    as (r & tr & Hr & Htr & Hfail & Hok & Hnil).
  exists r, (trb ++ tr). split.
  { eapply runs_bind; [|exact Hr].
    rewrite <- (app_nil_r trb). eapply runs_bind; [exact Hrb|apply runs_ret]. }
  split_and!; [by apply Forall_app| | |done].
  - rewrite Hfail, Exists_cons. split; [tauto|]. intros [[_ Hb]|?]; [|done].
    apply Hbf in Hb. done.
  - intros m ->. destruct (Hok m eq_refl) as [Hdom Hfrom].
    rewrite filter_cons_True by done. split.
    { rewrite Hdom, dom_insert_L, fmap_cons, list_to_set_cons.
      by rewrite (assoc_L (∪)), (comm_L (∪) (dom m0)). }
    intros name b' Hb'. destruct (Hfrom name b' Hb') as [Hin|(f&?&?&?&?)].
    + destruct (decide (cluster_name file = name)) as [<-|Hne].
      * rewrite lookup_insert_eq in Hin. simplify_eq. right.
        exists file. split_and!; [by left|done|done|by apply Hpath].
      * rewrite lookup_insert_ne in Hin by done. by left.
    + right. exists f. by rewrite elem_of_cons; eauto.
Qed.

(** Entries that are not credential entries leave no mark: the scan of a
    listing is the scan of its credential entries. *)
Lemma scan_entries_filter files m0 t :
  scan_entries w location files m0 t
  = scan_entries w location (filter credential_entry files) m0 t.
Proof.
  revert m0 t. induction files as [|file files IH]; intros m0 t; [done|].
  destruct (decide (credential_entry file)) as [Hc|Hc].
  - rewrite filter_cons_True by done. cbn [scan_entries]. unfold bind.
    destruct (scan_entry w location file m0 t) as [[m|e] t']; [apply IH|done].
  - rewrite filter_cons_False by done. cbn [scan_entries].
    rewrite scan_entry_ignored by done. unfold bind, ret. apply IH.
Qed.

(** The two results of the scanner, and its trace. *)
Lemma readBuildClusterKubeConfigs_total :
  ∃ res tr,
    (∀ t, readBuildClusterKubeConfigs w location t
          = (res, t ++ E_ReadDir location :: tr)) ∧
    Forall scan_event tr ∧
    match ioutil_ReadDir w location with
    | inr _ => ∃ err, res = (None, Some err)
    | inl files =>
        (Exists (entry_fails w location) files ∧ ∃ err, res = (None, Some err)) ∨
        (¬ Exists (entry_fails w location) files ∧
         ∃ m, res = (Some m, None) ∧
               runs (scan_entries w location files ∅) (inl m) tr ∧
               dom m = list_to_set (cluster_name <$> filter credential_entry files) ∧
               bundles_from w location files ∅ m)
    end.
Proof.
  unfold readBuildClusterKubeConfigs.
  destruct (ioutil_ReadDir w location) as [files|e] eqn:Hd.
  2:{ eexists _, []. split; [intros t; by unfold bind, call|].
      split; [by constructor|]. eauto. }
  destruct (scan_entries_total files ∅)
    as (r & tr & Hr & Htr & Hfail & Hok & Hnil).
  assert (Heq : ∀ t,
    bind (call (E_ReadDir location) (inl files : list FileInfo + error)
            (λ err, (None, Some (Errorf "unable to access location %q: %v"
                                        [ArgString location; ArgError err]))))
         (λ files, scan_entries w location files ∅) t
    = (r, t ++ E_ReadDir location :: tr)).
  { intros t. unfold bind, call.
    by rewrite (Hr (t ++ [E_ReadDir location])), <- app_assoc. }
  destruct r as [m|e].
  - eexists _, tr. split; [intros t; by rewrite Heq|]. split; [done|].
    right. split; [intros H; by apply Hfail in H|].
    destruct (Hok m eq_refl) as [Hdom Hfrom].
    exists m. split_and!; try done.
    by rewrite Hdom, dom_empty_L, (left_id_L ∅ (∪)).
  - eexists _, tr. split; [intros t; by rewrite Heq|]. split; [done|].
    left. split; [by apply Hfail|by apply Hnil].
Qed.

End Scanner_facts.

(** ** The watch set-up *)

Section Watch_facts.
Context (w : World).

Lemma watch_call_mono clusters c ev :
  watch_call w clusters ev → watch_call w (c :: clusters) ev.
Proof.
  destruct ev; simpl; try done.
  - intros (? & c' & ? & ?). split; [done|]. exists c'. by rewrite elem_of_cons; eauto.
  - intros (? & ? & c' & ? & ?). split_and!; try done.
    exists c'. by rewrite elem_of_cons; eauto.
Qed.

Lemma watch_clusters_total clusters :
  ∃ r tr, runs (watch_clusters w clusters) r tr ∧
    Forall (watch_call w clusters) tr ∧
    (r = inl tt ↔
       ∀ c, c ∈ clusters → present w c → watcher_Add w (KubeconfigPath c.2) = None) ∧
    (r = inl tt →
       watched tr = (λ c, KubeconfigPath c.2) <$> filter (present w) clusters).
Proof.
  induction clusters as [|[name cluster] clusters IH].
  { exists (inl tt), []. split; [apply runs_ret|]. split_and!; try done.
    split; [|done]. intros _ c Hc. by apply elem_of_nil in Hc. }
  destruct IH as (r & tr & Hr & Htr & Hiff & Hw).
  cbn [watch_clusters].
  set (p := KubeconfigPath cluster).
  assert (Hin : ∃ c, c ∈ (name, cluster) :: clusters ∧ p = KubeconfigPath c.2).
  { exists (name, cluster). split; [by left|done]. }
  assert (Hmono : Forall (watch_call w ((name, cluster) :: clusters)) tr).
  { eapply Forall_impl; [exact Htr|]. intros ev. apply watch_call_mono. }
  destruct (os_Stat w p) as [e|] eqn:Hst.
  - (* the file is missing: next cluster *)
    exists r, (E_Stat p (Some e) :: tr). split.
    { apply (runs_bind _ _ _ [_] _ _ (runs_perform _ _) Hr). }
    split_and!.
    + constructor; [|done]. simpl. by rewrite Hst.
    + rewrite Hiff. split.
      * intros H c [->|Hc]%elem_of_cons Hp; [|by apply H].
        unfold present in Hp. simpl in Hp. fold p in Hp. congruence.
      * intros H c Hc. apply H. by right.
    + intros Hrr. simpl. rewrite (Hw Hrr), filter_cons_False; [done|].
      unfold present. simpl. fold p. congruence.
  - destruct (watcher_Add w p) as [e|] eqn:Hadd.
    + (* the watch cannot be added: return *)
      eexists _, [E_Stat p None; E_WatcherAdd p (Some e)]. split.
      { apply (runs_bind _ _ _ [_] _ _ (runs_perform _ _)).
        apply runs_bind_err. by apply runs_call_err. }
      split_and!.
      * repeat constructor; simpl; by rewrite ?Hst, ?Hadd.
      * split; [done|]. intros H.
        specialize (H (name, cluster) ltac:(by left) Hst). simpl in H.
        fold p in H. congruence.
      * done.
    + (* the watch is added: next cluster *)
      exists r, (E_Stat p None :: E_WatcherAdd p None :: tr). split.
      { apply (runs_bind _ _ _ [_] _ _ (runs_perform _ _)).
        apply (runs_bind _ _ tt [_]); [by apply runs_call_ok|done]. }
      split_and!.
      * repeat constructor; simpl; by rewrite ?Hst, ?Hadd.
      * rewrite Hiff. split.
        -- intros H c [->|Hc]%elem_of_cons Hp; [done|by apply H].
        -- intros H c Hc. apply H. by right.
      * intros Hrr. simpl. rewrite (Hw Hrr), filter_cons_True; done.
Qed.

(** A bundle whose file is missing leaves the result and the watches as
    they are without it. *)
Lemma watch_clusters_skip clusters r tr :
  runs (watch_clusters w clusters) r tr →
  ∃ tr', runs (watch_clusters w (filter (present w) clusters)) r tr' ∧
         watched tr' = watched tr.
Proof.
  revert r tr. induction clusters as [|[name cluster] clusters IH]; intros r tr Hr.
  { exists tr. by rewrite filter_nil. }
  destruct (watch_clusters_total clusters) as (r0 & tr0 & Hr0 & _).
  destruct (IH _ _ Hr0) as (tr0' & Hr0' & Hw0).
  cbn [watch_clusters] in Hr.
  set (p := KubeconfigPath cluster) in *.
  destruct (os_Stat w p) as [e|] eqn:Hst.
  - rewrite filter_cons_False by (unfold present; simpl; fold p; congruence).
    pose proof (Hr []) as H. unfold bind, perform in H. simpl in H.
    rewrite Hr0 in H. simplify_eq.
    exists tr0'. by split.
  - rewrite filter_cons_True by done. cbn [watch_clusters]. fold p. rewrite Hst.
    destruct (watcher_Add w p) as [e|] eqn:Hadd.
    + eexists. split; [exact Hr|done].
    + pose proof (Hr []) as H. unfold bind, perform, call in H. simpl in H.
      rewrite Hr0 in H. simplify_eq.
      exists (E_Stat p None :: E_WatcherAdd p None :: tr0'). split.
      { apply (runs_bind _ _ _ [_] _ _ (runs_perform _ _)).
        apply (runs_bind _ _ tt [_]); [by apply runs_call_ok|exact Hr0']. }
      simpl. by rewrite Hw0.
Qed.

(** When the loop gets through, every bundle has been looked at. *)
Lemma watch_clusters_visits clusters tr :
  runs (watch_clusters w clusters) (inl tt) tr →
  ∀ c, c ∈ clusters →
    E_Stat (KubeconfigPath c.2) (os_Stat w (KubeconfigPath c.2)) ∈ tr ∧
    (present w c → E_WatcherAdd (KubeconfigPath c.2) None ∈ tr).
Proof.
  revert tr. induction clusters as [|[name cluster] clusters IH]; intros tr Hr c Hc.
  { by apply elem_of_nil in Hc. }
  destruct (watch_clusters_total clusters) as (r0 & tr0 & Hr0 & _).
  pose proof (Hr []) as H. cbn [watch_clusters] in H.
  unfold bind, perform, call in H. simpl in H.
  set (p := KubeconfigPath cluster) in *.
  destruct (os_Stat w p) as [e|] eqn:Hst.
  - rewrite Hr0 in H. simplify_eq.
    apply elem_of_cons in Hc as [->|Hc].
    + simpl. fold p. rewrite Hst. split; [by left|].
      unfold present. simpl. fold p. congruence.
    + destruct (IH _ Hr0 c Hc). split; [by right|]. intros ?. right. eauto.
  - destruct (watcher_Add w p) as [e|] eqn:Hadd; simpl in H; [done|].
    rewrite Hr0 in H. simplify_eq.
    apply elem_of_cons in Hc as [->|Hc].
    + simpl. fold p. rewrite Hst. split; [by left|]. intros _. right. by left.
    + destruct (IH _ Hr0 c Hc). split; [by do 2 right|].
      intros ?. do 2 right. eauto.
Qed.

Lemma watched_app t1 t2 : watched (t1 ++ t2) = watched t1 ++ watched t2.
Proof.
  induction t1 as [|ev t1 IH]; [done|].
  destruct ev as [| | | | | | | |? []|? []| | | | | | | | | | | | | | | | |]; simpl;
    by rewrite ?IH.
Qed.

Lemma elem_of_watched p t : p ∈ watched t ↔ E_WatcherAdd p None ∈ t.
Proof.
  induction t as [|ev t IH]; [by rewrite !elem_of_nil|].
  rewrite elem_of_cons, <- IH.
  destruct ev as [| | | | | | | |? []|? [] | | | | | | | | | | | | | | | | |]; simpl;
    rewrite ?elem_of_cons; naive_solver.
Qed.

Lemma watch_call_event clusters ev : watch_call w clusters ev → watch_event ev.
Proof. by destruct ev. Qed.

(** The set-up as a whole: no watcher, or the loop and then the goroutine. *)
Lemma setupKubeconfigWatches_total clusters :
  ∃ r tr, (∀ t, setupKubeconfigWatches w clusters t = (r, t ++ tr)) ∧
    Forall watch_event tr ∧
    match fsnotify_NewWatcher w with
    | Some e =>
        r = Some (Errorf "failed to set up watcher: %w" [ArgError e]) ∧
        tr = [E_NewWatcher]
    | None =>
        ∃ r' tr', runs (watch_clusters w (range_order w clusters)) r' tr' ∧
          Forall (watch_call w (range_order w clusters)) tr' ∧
          match r' with
          | inl _ => r = None ∧ tr = E_NewWatcher :: tr' ++ [E_GoEventLoop]
          | inr e => r = Some e ∧ tr = E_NewWatcher :: tr'
          end
    end.
Proof.
  unfold setupKubeconfigWatches.
  destruct (fsnotify_NewWatcher w) as [e|] eqn:Hnw.
  { eexists _, _. split; [intros t; unfold bind, call; by simpl|].
    split; [by repeat constructor|done]. }
  destruct (watch_clusters_total (range_order w clusters))
    as (r' & tr' & Hr' & Htr' & _).
  assert (Hev : Forall watch_event tr').
  { eapply Forall_impl; [exact Htr'|]. apply watch_call_event. }
  destruct r' as [[]|e].
  - exists None, (E_NewWatcher :: tr' ++ [E_GoEventLoop]). split.
    { intros t. unfold bind, call, perform. simpl. rewrite Hr'.
      by rewrite <- !app_assoc. }
    split.
    + constructor; [done|]. apply Forall_app. split; [done|by repeat constructor].
    + exists (inl tt), tr'. by split_and!.
  - exists (Some e), (E_NewWatcher :: tr'). split.
    { intros t. unfold bind, call, perform. simpl. rewrite Hr'.
      by rewrite <- !app_assoc. }
    split.
    + by constructor.
    + exists (inr e), tr'. by split_and!.
Qed.

End Watch_facts.

(** ** The claims about the scanner *)

(** C3. The scan is all or nothing: when the directory cannot be listed, or
    when for some matched entry that is no directory the file cannot be read,
    parsed or resolved, or one of its three clients cannot be made, the scan
    returns an error and the [nil] map, whatever the other entries are. *)
Theorem C3_scan_is_all_or_nothing (w : World) (location : string) (t : trace) :
  is_inr (ioutil_ReadDir w location) ∨
  (∃ files, ioutil_ReadDir w location = inl files ∧
            Exists (entry_fails w location) files) →
  ∃ err, (readBuildClusterKubeConfigs w location t).1 = (None, Some err).
Proof.
  intros H.
  destruct (readBuildClusterKubeConfigs_total w location)
    as (res & tr & Heq & _ & Hres).
  rewrite Heq. simpl.
  destruct (ioutil_ReadDir w location) as [files|e]; [|done].
  destruct H as [[]|(files' & [= <-] & Hex)].
  destruct Hres as [[_ ?]|[Hno _]]; [done|]. by destruct Hno.
Qed.

Lemma C3_scan_is_all_or_nothing_witness :
  ∃ err, (readBuildClusterKubeConfigs w_valid_and_malformed kubeconfigs_dir []).1
         = (None, Some err).
Proof.
  apply C3_scan_is_all_or_nothing. right.
  exists [regular "a.kubeconfig"; regular "b.kubeconfig"].
  split; [reflexivity|].
  apply Exists_cons_tl, Exists_cons_hd. split.
  - split; [reflexivity|]. eexists. vm_compute. reflexivity.
  - eapply parse_fails; vm_compute; reflexivity.
Defined.

(** C9. The domain of the scan is the matched entries that are no
    directories: an empty directory gives the empty map and no error; the
    other entries leave no mark on the result or on the calls made; the keys
    of the map are the names extracted from the matched entries; and a
    directory holding [notes.txt] and a valid [a.kubeconfig] gives the map
    with the single key [a]. *)
Theorem C9_scan_domain (w : World) (location : string) (t : trace) :
  (ioutil_ReadDir w location = inl [] →
   readBuildClusterKubeConfigs w location t
   = ((Some ∅, None), t ++ [E_ReadDir location]))
  ∧ (∀ files m0 t0,
       scan_entries w location files m0 t0
       = scan_entries w location (filter credential_entry files) m0 t0)
  ∧ (∀ files m t',
       ioutil_ReadDir w location = inl files →
       readBuildClusterKubeConfigs w location t = ((Some m, None), t') →
       dom m = list_to_set (cluster_name <$> filter credential_entry files))
  ∧ (∀ b tr,
       ioutil_ReadDir w location
       = inl [regular "notes.txt"; regular "a.kubeconfig"] →
       runs (build_bundle w (path_Join w location "a.kubeconfig") "a.kubeconfig")
            (inl b) tr →
       readBuildClusterKubeConfigs w location t
       = ((Some {[ "a" := b ]}, None), t ++ E_ReadDir location :: tr)
       ∧ size ({[ "a" := b ]} : BuildClusterClientConfigMap) = 1).
Proof.
  split_and!.
  - intros Hd. unfold readBuildClusterKubeConfigs, bind, call. by rewrite Hd.
  - apply scan_entries_filter.
  - intros files m t' Hd Hscan.
    destruct (readBuildClusterKubeConfigs_total w location)
      as (res & tr & Heq & _ & Hres).
    rewrite Hd in Hres. rewrite Heq in Hscan. simplify_eq.
    destruct Hres as [[_ [? ?]]|[_ (m' & ? & _ & Hdom & _)]];
      by simplify_eq.
  - intros b tr Hd Hb. split; [|apply map_size_singleton].
    assert (Hc : credential_entry (regular "a.kubeconfig")).
    { split; [done|]. eexists. vm_compute. reflexivity. }
    assert (Hn : ¬ credential_entry (regular "notes.txt")).
    { intros [_ [x Hx]]. vm_compute in Hx. discriminate. }
    unfold readBuildClusterKubeConfigs, bind at 1, call. rewrite Hd.
    rewrite scan_entries_filter.
    rewrite filter_cons_False, filter_cons_True, filter_nil by done.
    cbn [scan_entries]. rewrite scan_entry_credential by done.
    change (cluster_name (regular "a.kubeconfig")) with "a".
    unfold bind, ret. cbn [Name regular]. rewrite Hb.
    by rewrite <- app_assoc.
Qed.

Lemma C9_scan_domain_witness :
  readBuildClusterKubeConfigs w_notes kubeconfigs_dir []
  = ((Some {[ "a" := bundle_at a_path 16 ]}, None),
     [E_ReadDir kubeconfigs_dir;
      E_ReadFile a_path;
      E_NewClientConfigFromBytes "credentials of a";
      E_ClientConfig (ClientConfigAt 16);
      E_NewCoreClient (RestConfigAt 16);
      E_NewImageClient (RestConfigAt 16);
      E_NewProjectClient (RestConfigAt 16)]).
Proof.
  destruct (C9_scan_domain w_notes kubeconfigs_dir []) as (_ & _ & _ & H).
  apply (H (bundle_at a_path 16)); [reflexivity|].
  unfold build_bundle. run_calls.
Defined.

(** C10. After a successful scan of [location], every bundle of the map
    holds, as its [KubeconfigPath], the join of [location] with the name of
    the entry it was built from; and the paths the watch set-up looks at
    with [os.Stat] and hands to [watcher.Add] are these stored paths, every
    one of them when the set-up succeeds. *)
Theorem C10_one_path_per_cluster (w : World) (location : string)
    (files : list FileInfo) (m : BuildClusterClientConfigMap) (t t1 : trace) :
  ioutil_ReadDir w location = inl files →
  readBuildClusterKubeConfigs w location t = ((Some m, None), t1) →
  range_order w m ≡ₚ map_to_list m →
  (∀ name b, m !! name = Some b →
     ∃ file, file ∈ files ∧ credential_entry file ∧ name = cluster_name file ∧
             KubeconfigPath b = path_Join w location (Name file))
  ∧ ∃ r tr, setupKubeconfigWatches w m t1 = (r, t1 ++ tr) ∧
      (∀ p e, E_Stat p e ∈ tr ∨ E_WatcherAdd p e ∈ tr →
         ∃ name b file, m !! name = Some b ∧ p = KubeconfigPath b ∧
           file ∈ files ∧ credential_entry file ∧ name = cluster_name file ∧
           p = path_Join w location (Name file)) ∧
      (r = None → ∀ name b, m !! name = Some b →
         E_Stat (KubeconfigPath b) (os_Stat w (KubeconfigPath b)) ∈ tr ∧
         (os_Stat w (KubeconfigPath b) = None →
          E_WatcherAdd (KubeconfigPath b) None ∈ tr)).
Proof.
  intros Hd Hscan Hperm.
  assert (Hfrom : ∀ name b, m !! name = Some b →
     ∃ file, file ∈ files ∧ credential_entry file ∧ name = cluster_name file ∧
             KubeconfigPath b = path_Join w location (Name file)).
  { destruct (readBuildClusterKubeConfigs_total w location)
      as (res & tr & Heq & _ & Hres).
    rewrite Hd in Hres. rewrite Heq in Hscan. simplify_eq.
    destruct Hres as [[_ [? ?]]|[_ (m' & ? & _ & _ & Hfrom)]];
      simplify_eq.
    intros name b Hb. destruct (Hfrom name b Hb) as [Hin|?]; [|done].
    by rewrite lookup_empty in Hin. }
  split; [exact Hfrom|].
  assert (Hin : ∀ c, c ∈ range_order w m ↔ m !! c.1 = Some c.2).
  { intros [name b]. by rewrite Hperm, elem_of_map_to_list. }
  destruct (setupKubeconfigWatches_total w m) as (r & tr & Heq & _ & Hcase).
  exists r, tr. split; [done|].
  destruct (fsnotify_NewWatcher w) as [e|].
  { destruct Hcase as [-> ->]. split; [|done].
    intros p e' [H|H]; apply list_elem_of_singleton in H; done. }
  destruct Hcase as (r' & tr' & Hr' & Hcalls & Hcase).
  assert (Hsub : ∀ ev, ev ∈ tr → ev = E_NewWatcher ∨ ev = E_GoEventLoop ∨ ev ∈ tr').
  { intros ev. destruct r' as [[]|e]; destruct Hcase as [_ ->];
      rewrite ?elem_of_cons, ?elem_of_app, ?list_elem_of_singleton; tauto. }
  split.
  - rewrite Forall_forall in Hcalls.
    assert (Hpath : ∀ p, (∃ c, c ∈ range_order w m ∧ p = KubeconfigPath c.2) →
      ∃ name b file, m !! name = Some b ∧ p = KubeconfigPath b ∧
           file ∈ files ∧ credential_entry file ∧ name = cluster_name file ∧
           p = path_Join w location (Name file)).
    { intros p ([name b] & Hc & ->). apply Hin in Hc. simpl in *.
      destruct (Hfrom name b Hc) as (file & ? & ? & ? & ?).
      exists name, b, file. by split_and!. }
    intros p e [H|H]; apply Hsub in H as [?|[?|H]]; try done;
      apply Hcalls in H; simpl in H; apply Hpath; naive_solver.
  - intros ->. destruct r' as [[]|e]; [|by destruct Hcase].
    destruct Hcase as [_ ->]. intros name b Hb.
    destruct (watch_clusters_visits w _ _ Hr' (name, b)) as [H1 H2].
    { by apply Hin. }
    simpl in *. split.
    + right. apply elem_of_app. by left.
    + intros Hst. right. apply elem_of_app. left. by apply H2.
Qed.

Lemma C10_one_path_per_cluster_witness :
  (∀ name b, ({[ "a" := bundle_at a_path 16 ]} : BuildClusterClientConfigMap)
               !! name = Some b →
     ∃ file, file ∈ [regular "notes.txt"; regular "a.kubeconfig"] ∧
             credential_entry file ∧ name = cluster_name file ∧
             KubeconfigPath b = path_Join w_notes kubeconfigs_dir (Name file))
  ∧ ∃ r tr,
      setupKubeconfigWatches w_notes {[ "a" := bundle_at a_path 16 ]}
        [E_ReadDir kubeconfigs_dir;
         E_ReadFile a_path;
         E_NewClientConfigFromBytes "credentials of a";
         E_ClientConfig (ClientConfigAt 16);
         E_NewCoreClient (RestConfigAt 16);
         E_NewImageClient (RestConfigAt 16);
         E_NewProjectClient (RestConfigAt 16)]
      = (r, [E_ReadDir kubeconfigs_dir;
             E_ReadFile a_path;
             E_NewClientConfigFromBytes "credentials of a";
             E_ClientConfig (ClientConfigAt 16);
             E_NewCoreClient (RestConfigAt 16);
             E_NewImageClient (RestConfigAt 16);
             E_NewProjectClient (RestConfigAt 16)] ++ tr) ∧
      (∀ p e, E_Stat p e ∈ tr ∨ E_WatcherAdd p e ∈ tr →
         ∃ name b file,
           ({[ "a" := bundle_at a_path 16 ]} : BuildClusterClientConfigMap)
             !! name = Some b ∧ p = KubeconfigPath b ∧
           file ∈ [regular "notes.txt"; regular "a.kubeconfig"] ∧
           credential_entry file ∧ name = cluster_name file ∧
           p = path_Join w_notes kubeconfigs_dir (Name file)) ∧
      (r = None → ∀ name b,
         ({[ "a" := bundle_at a_path 16 ]} : BuildClusterClientConfigMap)
           !! name = Some b →
         E_Stat (KubeconfigPath b) (os_Stat w_notes (KubeconfigPath b)) ∈ tr ∧
         (os_Stat w_notes (KubeconfigPath b) = None →
          E_WatcherAdd (KubeconfigPath b) None ∈ tr)).
Proof.
  apply (C10_one_path_per_cluster w_notes kubeconfigs_dir
           [regular "notes.txt"; regular "a.kubeconfig"]
           {[ "a" := bundle_at a_path 16 ]} []).
  - reflexivity.
  - vm_compute. reflexivity.
  - reflexivity.
Defined.

(** ** The claims about the watches *)

(** C7. A bundle whose file is not there when the watches are set up is
    skipped without a word: no watch is added for its path; the set-up ends
    as the loop over the bundles that are there ends, with the same watches;
    and when [watcher.Add] takes each file that is there, the set-up succeeds,
    watches exactly those files and starts the event loop. *)
Theorem C7_missing_file_is_skipped (w : World)
    (clusters : BuildClusterClientConfigMap) (t : trace) :
  fsnotify_NewWatcher w = None →
  range_order w clusters ≡ₚ map_to_list clusters →
  ∃ r tr, setupKubeconfigWatches w clusters t = (r, t ++ tr) ∧
    (∀ name b, clusters !! name = Some b →
       os_Stat w (KubeconfigPath b) ≠ None →
       (KubeconfigPath b ∉ watched tr) ∧
       (∀ e, E_WatcherAdd (KubeconfigPath b) e ∉ tr)) ∧
    (∃ tr', runs (watch_clusters w (filter (present w) (range_order w clusters)))
                 (check r) tr' ∧
            watched tr' = watched tr) ∧
    ((∀ name b, clusters !! name = Some b →
        os_Stat w (KubeconfigPath b) = None →
        watcher_Add w (KubeconfigPath b) = None) →
     r = None ∧ E_GoEventLoop ∈ tr ∧
     ∀ p, p ∈ watched tr ↔
          ∃ name b, clusters !! name = Some b ∧ p = KubeconfigPath b ∧
                    os_Stat w p = None).
Proof.
  intros Hnw Hperm.
  assert (Hin : ∀ c, c ∈ range_order w clusters ↔ clusters !! c.1 = Some c.2).
  { intros [name b]. by rewrite Hperm, elem_of_map_to_list. }
  destruct (setupKubeconfigWatches_total w clusters) as (r & tr & Heq & _ & Hcase).
  rewrite Hnw in Hcase. destruct Hcase as (r' & tr' & Hr' & Hcalls & Hcase).
  exists r, tr. split; [done|].
  assert (Hw : watched tr = watched tr').
  { destruct r' as [[]|e]; destruct Hcase as [_ ->]; simpl; [|done].
    by rewrite watched_app, app_nil_r. }
  assert (Hadd : ∀ p e, E_WatcherAdd p e ∈ tr → E_WatcherAdd p e ∈ tr').
  { intros p e. destruct r' as [[]|e']; destruct Hcase as [_ ->];
      rewrite ?elem_of_cons, ?elem_of_app, ?list_elem_of_singleton; naive_solver. }
  assert (Hr : r' = check r).
  { destruct r' as [[]|e]; by destruct Hcase as [-> _]. }
  rewrite Forall_forall in Hcalls.
  split_and!.
  - intros name b Hb Hst.
    assert (Hno : ∀ e, E_WatcherAdd (KubeconfigPath b) e ∉ tr).
    { intros e H. apply Hadd, Hcalls in H. simpl in H. by destruct H as (_ & ? & _). }
    split; [|done]. rewrite elem_of_watched. apply Hno.
  - destruct (watch_clusters_skip w _ _ _ Hr') as (tr'' & Hr'' & Hw'').
    exists tr''. rewrite <- Hr. split; [done|congruence].
  - intros Hok.
    destruct (watch_clusters_total w (range_order w clusters))
      as (r0 & tr0 & Hr0 & _ & Hiff & Hwatched).
    destruct (runs_det _ _ _ _ _ Hr' Hr0) as [-> ->].
    assert (Hr0' : r0 = inl tt).
    { apply Hiff. intros [name b] Hc Hp. apply Hin in Hc. by eapply Hok. }
    rewrite Hr0' in Hcase. destruct Hcase as [-> ->]. split; [done|]. split.
    { right. apply elem_of_app. right. by left. }
    intros p. rewrite Hw, (Hwatched Hr0'), list_elem_of_fmap. split.
    + intros ([name b] & -> & Hc). apply list_elem_of_filter in Hc as [Hp Hc].
      apply Hin in Hc. by exists name, b.
    + intros (name & b & Hb & -> & Hst). exists (name, b). split; [done|].
      apply list_elem_of_filter. split; [done|]. by apply Hin.
Qed.

Lemma C7_missing_file_is_skipped_witness :
  ∃ r tr,
    setupKubeconfigWatches w_b_removed
      (<[ "a" := bundle_at a_path 16 ]> {[ "b" := bundle_at b_path 17 ]}) []
    = (r, [] ++ tr) ∧
    (∀ name b,
       (<[ "a" := bundle_at a_path 16 ]> {[ "b" := bundle_at b_path 17 ]}
          : BuildClusterClientConfigMap) !! name = Some b →
       os_Stat w_b_removed (KubeconfigPath b) ≠ None →
       (KubeconfigPath b ∉ watched tr) ∧
       (∀ e, E_WatcherAdd (KubeconfigPath b) e ∉ tr)) ∧
    (∃ tr',
       runs (watch_clusters w_b_removed
               (filter (present w_b_removed)
                  (range_order w_b_removed
                     (<[ "a" := bundle_at a_path 16 ]>
                        {[ "b" := bundle_at b_path 17 ]}))))
            (check r) tr' ∧
       watched tr' = watched tr) ∧
    ((∀ name b,
        (<[ "a" := bundle_at a_path 16 ]> {[ "b" := bundle_at b_path 17 ]}
           : BuildClusterClientConfigMap) !! name = Some b →
        os_Stat w_b_removed (KubeconfigPath b) = None →
        watcher_Add w_b_removed (KubeconfigPath b) = None) →
     r = None ∧ E_GoEventLoop ∈ tr ∧
     ∀ p, p ∈ watched tr ↔
          ∃ name b,
            (<[ "a" := bundle_at a_path 16 ]> {[ "b" := bundle_at b_path 17 ]}
               : BuildClusterClientConfigMap) !! name = Some b ∧
            p = KubeconfigPath b ∧ os_Stat w_b_removed p = None).
Proof.
  apply (C7_missing_file_is_skipped w_b_removed
           (<[ "a" := bundle_at a_path 16 ]> {[ "b" := bundle_at b_path 17 ]}) []).
  - reflexivity.
  - reflexivity.
Defined.

(** C4. The event loop: events whose [Op] is [Chmod] alone are passed over,
    so after any sequence of such events the loop is still watching and has
    done nothing; the first event of any other kind ends the process with
    [os.Exit(0)], whatever comes after it. Creation, modification, removal
    and renaming are such other kinds. *)
Theorem C4_event_loop (events : list fsnotify_Event) (t : trace) :
  (Forall (λ e, ev_Op e = fsnotify.Chmod) events →
   eventLoop events t = (Watching, t))
  ∧ (∀ pre e post,
       events = pre ++ e :: post →
       Forall (λ e, ev_Op e = fsnotify.Chmod) pre →
       ev_Op e ≠ fsnotify.Chmod →
       eventLoop events t = (Exited 0, t ++ [E_Infof kubeconfig_changed e; E_Exit 0]))
  ∧ Forall (λ op, op ≠ fsnotify.Chmod)
      [fsnotify.Create; fsnotify.Write; fsnotify.Remove; fsnotify.Rename].
Proof.
  split; [|split].
  - intros H. induction H as [|e events He _ IH]; [done|].
    cbn [eventLoop]. unfold on_event. by rewrite He, Z.eqb_refl.
  - intros pre e post -> Hpre He.
    induction Hpre as [|e' pre He' _ IH]; cbn [app eventLoop]; unfold on_event.
    + apply Z.eqb_neq in He. by rewrite He.
    + by rewrite He', Z.eqb_refl.
  - by repeat constructor.
Qed.

Lemma C4_event_loop_witness :
  eventLoop [chmod_event; chmod_event; write_event; remove_event] []
  = (Exited 0, [E_Infof kubeconfig_changed write_event; E_Exit 0]).
Proof.
  destruct (C4_event_loop [chmod_event; chmod_event; write_event; remove_event] [])
    as (_ & H & _).
  apply (H [chmod_event; chmod_event] write_event [remove_event]).
  - reflexivity.
  - repeat constructor.
  - vm_compute. discriminate.
Defined.

(** ** The retry loop *)

Lemma bot_loop_rounds w k : ∀ n fuel t,
  (∀ i, (n <= i < n + k)%nat → retried w (bot_Start w i)) →
  bot_loop w (k + fuel) n t = bot_loop w fuel (n + k) (t ++ rounds n k).
Proof.
  induction k as [|k IH]; intros n fuel t Hret.
  { by rewrite Nat.add_0_r, app_nil_r. }
  cbn [Nat.add bot_loop rounds].
  assert (Hn : retried w (bot_Start w n)) by (apply Hret; lia).
  replace (n + S k)%nat with (S n + k)%nat by lia.
  replace (t ++ E_BotStart n :: E_Sleep (5 * time_Second) :: rounds (S n) k)
    with (((t ++ [E_BotStart n]) ++ [E_Sleep (5 * time_Second)]) ++ rounds (S n) k)
    by (by rewrite <- !app_assoc).
  destruct Hn as [->|(e & -> & ->)]; simpl; apply IH; intros i Hi; apply Hret; lia.
Qed.

Lemma bot_loop_stops w fuel n t e :
  bot_Start w n = BotReturns (Some e) → isRetriable w e = false →
  bot_loop w (S fuel) n t = (Returned (Some e), t ++ [E_BotStart n]).
Proof. intros H1 H2. simpl. by rewrite H1, H2. Qed.

Lemma bot_loop_extends w fuel : ∀ n t, ∃ tr, (bot_loop w fuel n t).2 = t ++ tr.
Proof.
  induction fuel as [|fuel IH]; intros n t; simpl.
  { exists []. by rewrite app_nil_r. }
  destruct (IH (S n) ((t ++ [E_BotStart n]) ++ [E_Sleep (5 * time_Second)]))
    as (tr & Htr).
  destruct (bot_Start w n) as [[e|]|]; [destruct (isRetriable w e)|..]; simpl.
  - eexists. rewrite Htr. by rewrite <- !app_assoc.
  - by exists [E_BotStart n].
  - eexists. rewrite Htr. by rewrite <- !app_assoc.
  - by exists [E_BotStart n].
Qed.

(** A round of the loop begins with a start of the bot. *)
Lemma bot_loop_starts w fuel n t :
  ∃ tr, (bot_loop w (S fuel) n t).2 = t ++ E_BotStart n :: tr.
Proof.
  cbn [bot_loop].
  destruct (bot_loop_extends w fuel (S n)
              ((t ++ [E_BotStart n]) ++ [E_Sleep (5 * time_Second)])) as (tr & Htr).
  destruct (bot_Start w n) as [[e|]|]; [destruct (isRetriable w e)|..]; simpl.
  - eexists. rewrite Htr. by rewrite <- !app_assoc.
  - by exists [].
  - eexists. rewrite Htr. by rewrite <- !app_assoc.
  - by exists [].
Qed.

(** C5. The retry loop. After [k] returns of the bot that are [nil] or
    retriable, whatever [k] is, the loop has started the bot [k] times, slept
    five seconds after each return, and goes on as it began, with one more
    start of the bot; a return with an error that is not retriable ends
    [run] at once with that error. With two retriable errors and then one
    that is not, there are three starts and two pauses, and [main] ends the
    process with the third error. *)
Theorem C5_retry_loop (w : World) :
  (∀ k fuel t,
     (∀ i, (i < k)%nat → retried w (bot_Start w i)) →
     bot_loop w (k + fuel) 0 t = bot_loop w fuel k (t ++ rounds 0 k)
     ∧ ∃ tr, (bot_loop w (k + S fuel) 0 t).2
             = t ++ rounds 0 k ++ E_BotStart k :: tr)
  ∧ (∀ k fuel e t,
       (∀ i, (i < k)%nat → retried w (bot_Start w i)) →
       bot_Start w k = BotReturns (Some e) → isRetriable w e = false →
       (k < fuel)%nat →
       bot_loop w fuel 0 t = (Returned (Some e), t ++ rounds 0 k ++ [E_BotStart k]))
  ∧ (∀ e0 e1 e2 fuel token t0,
       startup w [] = (inl token, t0) →
       bot_Start w 0 = BotReturns (Some e0) → isRetriable w e0 = true →
       bot_Start w 1 = BotReturns (Some e1) → isRetriable w e1 = true →
       bot_Start w 2 = BotReturns (Some e2) → isRetriable w e2 = false →
       (2 < fuel)%nat →
       main w fuel
       = (Returned (Some e2),
          t0 ++ [E_BotStart 0; E_Sleep (5 * time_Second);
                 E_BotStart 1; E_Sleep (5 * time_Second);
                 E_BotStart 2;
                 E_LogFatal e2; E_Exit 1])).
Proof.
  assert (Hgo : ∀ k fuel t,
     (∀ i, (i < k)%nat → retried w (bot_Start w i)) →
     bot_loop w (k + fuel) 0 t = bot_loop w fuel k (t ++ rounds 0 k)).
  { intros k fuel t Hret. apply (bot_loop_rounds w k 0 fuel t).
    intros i Hi. apply Hret. lia. }
  assert (Hstop : ∀ k fuel e t,
       (∀ i, (i < k)%nat → retried w (bot_Start w i)) →
       bot_Start w k = BotReturns (Some e) → isRetriable w e = false →
       (k < fuel)%nat →
       bot_loop w fuel 0 t = (Returned (Some e), t ++ rounds 0 k ++ [E_BotStart k])).
  { intros k fuel e t Hret Hk He Hlt.
    replace fuel with (k + S (fuel - S k))%nat by lia.
    rewrite Hgo by done. rewrite (bot_loop_stops _ _ _ _ e) by done.
    by rewrite <- app_assoc. }
  split.
  { intros k fuel t Hret. split; [by apply Hgo|].
    rewrite Hgo by done.
    destruct (bot_loop_starts w fuel k (t ++ rounds 0 k)) as (tr & ->).
    exists tr. by rewrite <- app_assoc. }
  split; [exact Hstop|].
  intros e0 e1 e2 fuel token t0 Hstart H0 Hr0 H1 Hr1 H2 Hr2 Hfuel.
  unfold main, run. rewrite Hstart.
  rewrite (Hstop 2%nat fuel e2 t0); try done.
  - by rewrite <- app_assoc.
  - intros i Hi. right.
    destruct i as [|[|i]]; [by exists e0|by exists e1|lia].
Qed.

Lemma C5_retry_loop_witness :
  main w_bot_fails_thrice 5
  = (Returned (Some invalid_token),
     [E_ReadDir kubeconfigs_dir; E_NewWatcher; E_GoEventLoop;
      E_UrlParse "http://config.ci.openshift.org/config";
      E_Getenv "BOT_TOKEN"; E_LoadKubeconfig;
      E_DynamicNewForConfig (RestConfigAt 0);
      E_LoadKubeconfigFromFlagOrDefault "" (RestConfigAt 0);
      E_NewImageClient (RestConfigAt 0); E_ConfigAgent;
      E_NewJobManager (ConfigAgentAt 0) (URLAt 0) (ProwClientAt 0)
        (ImageClientsetAt 0) (Some ∅) "https://api.github.com" "";
      E_ManagerStart; E_NewBot "token"]
     ++ [E_BotStart 0; E_Sleep (5 * time_Second);
         E_BotStart 1; E_Sleep (5 * time_Second);
         E_BotStart 2;
         E_LogFatal invalid_token; E_Exit 1]).
Proof.
  destruct (C5_retry_loop w_bot_fails_thrice) as (_ & _ & H).
  apply (H connection_lost connection_lost invalid_token 5%nat "token");
    try reflexivity.
  lia.
Defined.

(** ** The start-up sequence *)

Section Behaved_facts.
Context {R : Type}.

Lemma behaved_ret {A} (a : A) : behaved (R:=R) (ret a).
Proof. eexists _, _. apply runs_ret. Qed.

Lemma behaved_return {A} (r : R) : behaved (A:=A) (return_ r).
Proof. eexists _, _. apply runs_return. Qed.

Lemma behaved_perform {A} ev (a : A) : behaved (R:=R) (perform ev a).
Proof. eexists _, _. apply runs_perform. Qed.

Lemma behaved_call {A} ev (res : A + error) (wrap : error → R) :
  behaved (call ev res wrap).
Proof. eexists _, _. apply runs_call. Qed.

Lemma behaved_bind {A B} (m : M R A) (k : A → M R B) :
  behaved m → (∀ a, behaved (k a)) → behaved (bind m k).
Proof.
  intros ([a|e] & tr & Hm) Hk.
  - destruct (Hk a) as (r & tr' & Hka). eexists _, _. by eapply runs_bind.
  - eexists _, _. by eapply runs_bind_err.
Qed.

(** The first call of a sequence is the first thing in its trace. *)
Lemma runs_call_first {A B} ev (res : A + error) (wrap : error → R)
    (k : A → M R B) :
  (∀ a, behaved (k a)) →
  ∃ r tr, runs (bind (call ev res wrap) k) r (ev :: tr).
Proof.
  intros Hk. destruct res as [a|e].
  - destruct (Hk a) as (r & tr & Hka). exists r, tr.
    apply (runs_bind _ _ a [ev]); [by apply runs_call_ok|done].
  - exists (inr (wrap e)), []. apply runs_bind_err. by apply runs_call_err.
Qed.

End Behaved_facts.

Lemma runs_panic {A} ev : runs (panic (A:=A) ev) (inr Panic) [ev].
Proof. by intros t. Qed.

Lemma behaved_panic {A} ev : behaved (panic (A:=A) ev).
Proof. eexists _, _. apply runs_panic. Qed.

Ltac behaved_steps :=
  repeat first
    [ apply behaved_ret | apply behaved_return | apply behaved_perform
    | apply behaved_call | apply behaved_panic
    | apply behaved_bind; [|intros ?]
    | match goal with |- behaved (if ?c then _ else _) => destruct c end
    | match goal with
      | |- behaved (match ?c with Some _ => _ | None => _ end) => destruct c
      end ].

Section Startup_facts.
Context (w : World).

Lemma run_from_resolver_first opt m :
  ∃ r tr, runs (run_from_resolver w opt m) r (E_UrlParse (ConfigResolver opt) :: tr).
Proof.
  unfold run_from_resolver. apply runs_call_first. intros resolverURL.
  behaved_steps.
Qed.

Lemma run_from_resolver_no_token opt m :
  os_Getenv w "BOT_TOKEN" = "" →
  match url_Parse w (ConfigResolver opt) with
  | inr e =>
      runs (run_from_resolver w opt m)
           (inr (Return (Errorf "--config-resolver is not a valid URL: %v"
                                [ArgError e])))
           [E_UrlParse (ConfigResolver opt)]
  | inl _ =>
      runs (run_from_resolver w opt m) (inr (Return token_missing))
           [E_UrlParse (ConfigResolver opt); E_Getenv "BOT_TOKEN"]
  end.
Proof.
  intros Htoken. unfold run_from_resolver.
  destruct (url_Parse w (ConfigResolver opt)) as [u|e] eqn:Hu.
  - apply (runs_bind _ _ u [_] _ [_]); [apply runs_call_ok; by rewrite ?Hu|].
    apply (runs_bind _ _ "" [_] _ []); [rewrite Htoken; apply runs_perform|].
    apply runs_return.
  - apply runs_bind_err. by intros t.
Qed.

(** What [run] is once the scan has succeeded and the watch set-up has
    come back. *)
Lemma run_after_watches fuel t m t1 r t2 :
  readBuildClusterKubeConfigs w
    (BuildClusterKubeconfigsLocation (parse_options (command_line w))) t
  = ((m, None), t1) →
  setupKubeconfigWatches w (default ∅ m) t1 = (r, t2) →
  run w fuel t =
    let t3 :=
      match r with
      | Some err => t2 ++ [E_Warningf "failed to set up kubeconfig watches: %v" err]
      | None => t2
      end in
    match run_from_resolver w (parse_options (command_line w)) m t3 with
    | (inr s, t') => (stopped s, t')
    | (inl _, t') => bot_loop w fuel 0 t'
    end.
Proof.
  intros Hscan Hwatch.
  unfold run, startup, bind at 1, scan_step. rewrite Hscan.
  unfold bind at 1, watch_step. rewrite Hwatch. by destruct r.
Qed.

End Startup_facts.

(** C8. A failure of the watch set-up does not end the start-up: [run]
    logs the warning and goes on with the resolver URL and the steps after
    it, as it would have without the failure. Not being able to make the
    watcher is such a failure. *)
Theorem C8_watch_failure_is_only_logged (w : World) (fuel : nat)
    (m : option BuildClusterClientConfigMap) (err : error) (t t1 t2 : trace) :
  let opt := parse_options (command_line w) in
  let warned := t2 ++ [E_Warningf "failed to set up kubeconfig watches: %v" err] in
  readBuildClusterKubeConfigs w (BuildClusterKubeconfigsLocation opt) t
  = ((m, None), t1) →
  setupKubeconfigWatches w (default ∅ m) t1 = (Some err, t2) →
  run w fuel t =
    match run_from_resolver w opt m warned with
    | (inr s, t') => (stopped s, t')
    | (inl _, t') => bot_loop w fuel 0 t'
    end
  ∧ (warned ++ [E_UrlParse (ConfigResolver opt)]) `prefix_of` (run w fuel t).2
  ∧ (∀ e clusters t0, fsnotify_NewWatcher w = Some e →
       setupKubeconfigWatches w clusters t0
       = (Some (Errorf "failed to set up watcher: %w" [ArgError e]),
          t0 ++ [E_NewWatcher])).
Proof.
  intros opt warned Hscan Hwatch.
  pose proof (run_after_watches w fuel t m t1 _ t2 Hscan Hwatch) as Hrun.
  cbv zeta in Hrun. subst opt warned.
  split; [exact Hrun|]. split.
  - rewrite Hrun.
    destruct (run_from_resolver_first w (parse_options (command_line w)) m)
      as (r & tr & Hr).
    rewrite Hr. destruct r as [tok|e]; simpl.
    + match goal with |- context [bot_loop w fuel 0 ?t0] =>
        destruct (bot_loop_extends w fuel 0 t0) as (tr' & ->) end.
      exists (tr ++ tr'). by rewrite <- !app_assoc.
    + exists tr. by rewrite <- !app_assoc.
  - intros e clusters t0 He.
    destruct (setupKubeconfigWatches_total w clusters) as (r & tr & Heq & _ & Hcase).
    rewrite He in Hcase. destruct Hcase as [-> ->]. apply Heq.
Qed.

Lemma C8_watch_failure_is_only_logged_witness :
  run w_no_watcher 1 []
  = (InsideBot,
     [E_ReadDir kubeconfigs_dir;
      E_ReadFile a_path;
      E_NewClientConfigFromBytes "credentials of a";
      E_ClientConfig (ClientConfigAt 16);
      E_NewCoreClient (RestConfigAt 16);
      E_NewImageClient (RestConfigAt 16);
      E_NewProjectClient (RestConfigAt 16);
      E_NewWatcher;
      E_Warningf "failed to set up kubeconfig watches: %v"
        (Errorf "failed to set up watcher: %w"
                [ArgError (LibError "too many open files")]);
      E_UrlParse "http://config.ci.openshift.org/config";
      E_Getenv "BOT_TOKEN"; E_LoadKubeconfig;
      E_DynamicNewForConfig (RestConfigAt 0);
      E_LoadKubeconfigFromFlagOrDefault "" (RestConfigAt 0);
      E_NewImageClient (RestConfigAt 0); E_ConfigAgent;
      E_NewJobManager (ConfigAgentAt 0) (URLAt 0) (ProwClientAt 0)
        (ImageClientsetAt 0) (Some {[ "a" := bundle_at a_path 16 ]})
        "https://api.github.com" "";
      E_ManagerStart; E_NewBot "token"; E_BotStart 0]).
Proof.
  destruct (C8_watch_failure_is_only_logged w_no_watcher 1
              (Some {[ "a" := bundle_at a_path 16 ]})
              (Errorf "failed to set up watcher: %w"
                      [ArgError (LibError "too many open files")])
              []
              [E_ReadDir kubeconfigs_dir;
               E_ReadFile a_path;
               E_NewClientConfigFromBytes "credentials of a";
               E_ClientConfig (ClientConfigAt 16);
               E_NewCoreClient (RestConfigAt 16);
               E_NewImageClient (RestConfigAt 16);
               E_NewProjectClient (RestConfigAt 16)]
              [E_ReadDir kubeconfigs_dir;
               E_ReadFile a_path;
               E_NewClientConfigFromBytes "credentials of a";
               E_ClientConfig (ClientConfigAt 16);
               E_NewCoreClient (RestConfigAt 16);
               E_NewImageClient (RestConfigAt 16);
               E_NewProjectClient (RestConfigAt 16);
               E_NewWatcher]) as (H & _).
  - vm_compute. reflexivity.
  - vm_compute. reflexivity.
  - rewrite H. vm_compute. reflexivity.
Defined.

Lemma scan_event_before_token ev : scan_event ev → before_token ev.
Proof. by destruct ev. Qed.

Lemma watch_event_before_token ev : watch_event ev → before_token ev.
Proof. by destruct ev. Qed.

(** C6 fails on the code. With no token and all else well, the directory
    has been scanned by the time the token is missed; with no token and a
    directory that cannot be listed, the error is the scan's. *)
Lemma C6_counterexample :
  ¬ C6_as_stated w_no_token 1 ∧ ¬ C6_as_stated w_no_token_no_directory 1.
Proof.
  split; intros H; destruct (H eq_refl) as (tr & Hrun & Hno).
  - assert (Hc : run w_no_token 1 []
      = (Returned (Some token_missing),
         [E_ReadDir kubeconfigs_dir;
          E_ReadFile a_path;
          E_NewClientConfigFromBytes "credentials of a";
          E_ClientConfig (ClientConfigAt 16);
          E_NewCoreClient (RestConfigAt 16);
          E_NewImageClient (RestConfigAt 16);
          E_NewProjectClient (RestConfigAt 16);
          E_NewWatcher; E_Stat a_path None; E_WatcherAdd a_path None;
          E_GoEventLoop;
          E_UrlParse "http://config.ci.openshift.org/config";
          E_Getenv "BOT_TOKEN"])) by (vm_compute; reflexivity).
    rewrite Hc in Hrun. simplify_eq.
    apply (Hno kubeconfigs_dir). by left.
  - assert (Hc : run w_no_token_no_directory 1 []
      = (Returned (Some
           (Errorf "unable to load build cluster configurations: %v"
              [ArgError
                 (Errorf "unable to access location %q: %v"
                    [ArgString kubeconfigs_dir;
                     ArgError (LibError "no such file or directory")])])),
         [E_ReadDir kubeconfigs_dir])) by (vm_compute; reflexivity).
    rewrite Hc in Hrun. discriminate.
Qed.

(** The watch set-up begins by making the watcher. *)
Lemma setupKubeconfigWatches_first (w : World)
    (clusters : BuildClusterClientConfigMap) :
  ∃ r tr, (∀ t, setupKubeconfigWatches w clusters t = (r, t ++ E_NewWatcher :: tr)) ∧
          Forall watch_event tr.
Proof.
  destruct (setupKubeconfigWatches_total w clusters) as (r & tr & Heq & Hev & Hcase).
  destruct (fsnotify_NewWatcher w) as [e|].
  { destruct Hcase as [-> ->]. exists (Some (Errorf "failed to set up watcher: %w"
                                                     [ArgError e])), [].
    by split. }
  destruct Hcase as (r' & tr' & _ & _ & Hcase).
  destruct r' as [[]|e]; destruct Hcase as [-> ->];
    apply Forall_cons in Hev as [_ Hev]; eexists _, _; by split.
Qed.

(** C6, amended. The token is looked at after the scan, the watch set-up
    and the resolver URL. With no bot token, [run] returns an error; the
    first thing it has done is to list the directory, and it has made none
    of the calls that come after the token check. When the scan fails, the
    error is the scan's, wrapped, and nothing but the scan was done. When
    the scan gives a map, the watches were set up on that map right after
    the scan (the watcher was made, and a failure of the set-up logged),
    then the resolver URL was parsed: if it does not parse, the error is the
    URL's, wrapped; if it does, the token was read as the last call and the
    error is the missing-token error. *)
Theorem C6_token_is_checked_after_the_scan (w : World) (fuel : nat) :
  os_Getenv w "BOT_TOKEN" = "" →
  let opt := parse_options (command_line w) in
  let location := BuildClusterKubeconfigsLocation opt in
  ∃ err tr,
    run w fuel [] = (Returned (Some err), E_ReadDir location :: tr) ∧
    Forall before_token tr ∧
    ((∃ e,
        readBuildClusterKubeConfigs w location []
        = ((None, Some e), E_ReadDir location :: tr) ∧
        err = Errorf "unable to load build cluster configurations: %v" [ArgError e])
     ∨ (∃ m trs rw trw,
          readBuildClusterKubeConfigs w location []
          = ((Some m, None), E_ReadDir location :: trs) ∧
          setupKubeconfigWatches w m (E_ReadDir location :: trs)
          = (rw, (E_ReadDir location :: trs) ++ E_NewWatcher :: trw) ∧
          match url_Parse w (ConfigResolver opt) with
          | inr e =>
              err = Errorf "--config-resolver is not a valid URL: %v" [ArgError e] ∧
              tr = trs ++ E_NewWatcher :: trw ++ watch_warning rw
                       ++ [E_UrlParse (ConfigResolver opt)]
          | inl _ =>
              err = token_missing ∧
              tr = trs ++ E_NewWatcher :: trw ++ watch_warning rw
                       ++ [E_UrlParse (ConfigResolver opt); E_Getenv "BOT_TOKEN"]
          end)).
Proof.
  intros Htoken opt location.
  destruct (readBuildClusterKubeConfigs_total w location)
    as (res & trs & Heq & Hev & Hres).
  assert (Hcase : (∃ e, res = (None, Some e)) ∨ (∃ m, res = (Some m, None))).
  { destruct (ioutil_ReadDir w _); [|by left].
    destruct Hres as [[_ ?]|[_ (m & ? & _)]]; [by left|right; eauto]. }
  pose proof (Forall_impl _ _ _ Hev scan_event_before_token) as Hbefore.
  destruct Hcase as [[e ->]|[m ->]].
  { eexists _, trs. split_and!.
    - unfold run, startup, bind, scan_step. fold opt location. by rewrite Heq.
    - done.
    - left. exists e. split; [apply (Heq [])|done]. }
  destruct (setupKubeconfigWatches_first w m) as (rw & trw & Hw & Hevw).
  pose proof (Forall_impl _ _ _ Hevw watch_event_before_token) as Hbeforew.
  pose proof (run_after_watches w fuel [] (Some m) _ rw _ (Heq []) (Hw _)) as Hrun.
  cbv zeta in Hrun. fold opt in Hrun.
  pose proof (run_from_resolver_no_token w opt (Some m) Htoken) as Hres'.
  assert (Hlog : Forall before_token (watch_warning rw)).
  { destruct rw; by repeat constructor. }
  destruct (url_Parse w (ConfigResolver opt)) as [u|e] eqn:Hu.
  - exists token_missing,
      (trs ++ E_NewWatcher :: trw ++ watch_warning rw
           ++ [E_UrlParse (ConfigResolver opt); E_Getenv "BOT_TOKEN"]).
    split_and!.
    + rewrite Hrun, Hres'. destruct rw; simpl; by rewrite <- ?app_assoc.
    + rewrite Forall_app, Forall_cons, !Forall_app.
      split_and!; try done; by repeat constructor.
    + right. exists m, trs, rw, trw.
      split_and!; [apply (Heq [])|apply Hw|done|done].
  - exists (Errorf "--config-resolver is not a valid URL: %v" [ArgError e]),
      (trs ++ E_NewWatcher :: trw ++ watch_warning rw
           ++ [E_UrlParse (ConfigResolver opt)]).
    split_and!.
    + rewrite Hrun, Hres'. destruct rw; simpl; by rewrite <- ?app_assoc.
    + rewrite Forall_app, Forall_cons, !Forall_app.
      split_and!; try done; by repeat constructor.
    + right. exists m, trs, rw, trw.
      split_and!; [apply (Heq [])|apply Hw|done|done].
Qed.

Lemma C6_token_is_checked_after_the_scan_witness :
  ∃ err tr,
    run w_no_token 1 []
    = (Returned (Some err),
       E_ReadDir
         (BuildClusterKubeconfigsLocation (parse_options (command_line w_no_token)))
       :: tr) ∧
    Forall before_token tr ∧
    ((∃ e,
        readBuildClusterKubeConfigs w_no_token
          (BuildClusterKubeconfigsLocation (parse_options (command_line w_no_token))) []
        = ((None, Some e),
           E_ReadDir
             (BuildClusterKubeconfigsLocation
                (parse_options (command_line w_no_token))) :: tr) ∧
        err = Errorf "unable to load build cluster configurations: %v" [ArgError e])
     ∨ (∃ m trs rw trw,
          readBuildClusterKubeConfigs w_no_token
            (BuildClusterKubeconfigsLocation (parse_options (command_line w_no_token))) []
          = ((Some m, None),
             E_ReadDir
               (BuildClusterKubeconfigsLocation
                  (parse_options (command_line w_no_token))) :: trs) ∧
          setupKubeconfigWatches w_no_token m
            (E_ReadDir
               (BuildClusterKubeconfigsLocation
                  (parse_options (command_line w_no_token))) :: trs)
          = (rw,
             (E_ReadDir
                (BuildClusterKubeconfigsLocation
                   (parse_options (command_line w_no_token))) :: trs)
             ++ E_NewWatcher :: trw) ∧
          match url_Parse w_no_token
                  (ConfigResolver (parse_options (command_line w_no_token))) with
          | inr e =>
              err = Errorf "--config-resolver is not a valid URL: %v" [ArgError e] ∧
              tr = trs ++ E_NewWatcher :: trw ++ watch_warning rw
                       ++ [E_UrlParse
                             (ConfigResolver (parse_options (command_line w_no_token)))]
          | inl _ =>
              err = token_missing ∧
              tr = trs ++ E_NewWatcher :: trw ++ watch_warning rw
                       ++ [E_UrlParse
                             (ConfigResolver (parse_options (command_line w_no_token)));
                           E_Getenv "BOT_TOKEN"]
          end)).
Proof.
  apply (C6_token_is_checked_after_the_scan w_no_token 1). reflexivity.
Defined.

(** C2 (the code departs from it). The claim: any failure to resolve the
    release-cluster connection makes [run] return an error before the Job
    Manager and the Bot exist. The error of line 106 is overwritten by
    line 107 and never looked at: lines 84-122 do the same in a world where
    the load fails as in the world where it reports no error. When the
    load fails, handing back a nil configuration and an error, [run] passes
    the nil configuration to [imageclientset.NewForConfig], which panics:
    [run] returns no error, and the error of the load is lost. With
    [--release-cluster-kubeconfig] naming a file that cannot be loaded, the
    process ends by that panic, [main] not getting to [log.Fatal]. *)
Theorem C2_release_load_error_is_dropped :
  (∀ w opt m t,
     run_from_resolver w opt m t
     = run_from_resolver (ignoring_release_error w) opt m t)
  ∧ (∀ w opt m u c prow e,
       url_Parse w (ConfigResolver opt) = inl u →
       os_Getenv w "BOT_TOKEN" ≠ "" →
       loadKubeconfig w = inl c →
       dynamic_NewForConfig w c = inl prow →
       loadKubeconfigFromFlagOrDefault w (ReleaseClusterKubeconfig opt) c
       = (None, Some e) →
       runs (run_from_resolver w opt m) (inr Panic)
         [E_UrlParse (ConfigResolver opt); E_Getenv "BOT_TOKEN"; E_LoadKubeconfig;
          E_DynamicNewForConfig c;
          E_LoadKubeconfigFromFlagOrDefault (ReleaseClusterKubeconfig opt) c;
          E_NewImageClientNil])
  ∧ loadKubeconfigFromFlagOrDefault w_release_load_fails
      "/etc/release.kubeconfig" (RestConfigAt 0)
    = (None, Some (LibError "no such file or directory"))
  ∧ main w_release_load_fails 1
    = (Panicked,
       [E_ReadDir kubeconfigs_dir; E_NewWatcher; E_GoEventLoop;
        E_UrlParse "http://config.ci.openshift.org/config";
        E_Getenv "BOT_TOKEN"; E_LoadKubeconfig;
        E_DynamicNewForConfig (RestConfigAt 0);
        E_LoadKubeconfigFromFlagOrDefault "/etc/release.kubeconfig" (RestConfigAt 0);
        E_NewImageClientNil]).
Proof.
  split_and!.
  - intros w opt m t. reflexivity.
  - intros w opt m u c prow e Hu Htok Hc Hp Hload t.
    assert (Hlen : (String.length (os_Getenv w "BOT_TOKEN") =? 0)%nat = false).
    { destruct (os_Getenv w "BOT_TOKEN"); [done|reflexivity]. }
    unfold run_from_resolver, bind, call, perform, panic.
    rewrite Hu, Hlen, Hc, Hp. simpl. rewrite Hload. simpl.
    by rewrite <- !app_assoc.
  - reflexivity.
  - vm_compute. reflexivity.
Qed.

(** The failures of that step which do make [run] return an error: the
    ambient credential cannot be loaded, or the image client cannot be made
    from a configuration that is there. *)
Lemma release_step_fatal_failures (w : World) (opt : options)
    (m : option BuildClusterClientConfigMap) (u : URL) :
  url_Parse w (ConfigResolver opt) = inl u →
  os_Getenv w "BOT_TOKEN" ≠ "" →
  (∀ e, loadKubeconfig w = inr e →
     runs (run_from_resolver w opt m) (inr (Return e))
       [E_UrlParse (ConfigResolver opt); E_Getenv "BOT_TOKEN"; E_LoadKubeconfig])
  ∧ (∀ c prow releaseConfig e,
       loadKubeconfig w = inl c →
       dynamic_NewForConfig w c = inl prow →
       (loadKubeconfigFromFlagOrDefault w (ReleaseClusterKubeconfig opt) c).1
       = Some releaseConfig →
       imageclientset_NewForConfig w releaseConfig = inr e →
       runs (run_from_resolver w opt m)
         (inr (Return (Errorf "unable to create image client: %v" [ArgError e])))
         [E_UrlParse (ConfigResolver opt); E_Getenv "BOT_TOKEN"; E_LoadKubeconfig;
          E_DynamicNewForConfig c;
          E_LoadKubeconfigFromFlagOrDefault (ReleaseClusterKubeconfig opt) c;
          E_NewImageClient releaseConfig]).
Proof.
  intros Hu Htok.
  assert (Hlen : (String.length (os_Getenv w "BOT_TOKEN") =? 0)%nat = false).
  { destruct (os_Getenv w "BOT_TOKEN"); [done|reflexivity]. }
  split.
  - intros e He t. unfold run_from_resolver, bind, call, perform.
    rewrite Hu, Hlen, He. by rewrite <- !app_assoc.
  - intros c prow rc e Hc Hp Hrc Hi t. unfold run_from_resolver, bind, call, perform.
    rewrite Hu, Hlen, Hc, Hp. simpl. rewrite Hrc, Hi. by rewrite <- !app_assoc.
Qed.

(** * Further properties of the code *)

(** ** The matcher, in general *)

Lemma runes_ascii_cons c s :
  (Utf8.byte_val c < 128)%N →
  Utf8.runes (String c s) = String c EmptyString :: Utf8.runes s.
Proof.
  intros Hc. rewrite runes_eq.
  assert (Hw : Utf8.rune_width (String c s) = 1%nat).
  { unfold Utf8.rune_width, Utf8.first.
    assert (Hlt : (Utf8.byte_val c <? 194)%N = true) by (apply N.ltb_lt; lia).
    cbv zeta. by rewrite Hlt. }
  rewrite Hw. by destruct s.
Qed.

Lemma runes_literal_app post :
  Utf8.runes ("kubeconfig" +:+ post) = Regexp.literal ++ Utf8.runes post.
Proof.
  rewrite !append_cons, append_nil_l.
  by rewrite !runes_ascii_cons by (by vm_compute).
Qed.

(** X1. On every name that holds no newline, the empty name included, the
    expression matches [<name>.kubeconfig] as a whole and extracts exactly
    the name: such a file, when it is no directory, is a credential entry
    filed under [<name>]. *)
Theorem X1_specified_names_are_matched (name : string) :
  contains_byte newline_byte name = false →
  reBuildClusterName_FindStringSubmatch (name +:+ ".kubeconfig")
  = Some (name +:+ ".kubeconfig", name)
  ∧ credential_entry (regular (name +:+ ".kubeconfig"))
  ∧ cluster_name (regular (name +:+ ".kubeconfig")) = name.
Proof.
  intros Hnl. pose proof (FindStringSubmatch_suffix name Hnl) as H.
  split; [done|]. unfold credential_entry, cluster_name. cbn [Name IsDir regular].
  rewrite H. by split_and!.
Qed.

Lemma X1_specified_names_are_matched_witness :
  reBuildClusterName_FindStringSubmatch ("east" +:+ ".kubeconfig")
  = Some ("east" +:+ ".kubeconfig", "east")
  ∧ credential_entry (regular ("east" +:+ ".kubeconfig"))
  ∧ cluster_name (regular ("east" +:+ ".kubeconfig")) = "east".
Proof. apply X1_specified_names_are_matched. reflexivity. Defined.

(** The star goes as far as it can: the expression matches at the head
    of any code points that can be matched there. *)
Lemma match_here_complete g c rest :
  Forall (λ r, Regexp.any_not_nl r = true) g →
  Regexp.any_not_nl c = true →
  is_Some (Regexp.match_here (g ++ c :: Regexp.literal ++ rest)).
Proof.
  intros Hg Hc. induction Hg as [|r g Hr _ IH].
  - cbn [app]. rewrite match_here_eq. cbv zeta. rewrite Hc.
    assert (Hag : Regexp.after_group (c :: Regexp.literal ++ rest)
                  = Some (c :: Regexp.literal)).
    { unfold Regexp.after_group. rewrite Hc.
      by rewrite (proj2 (has_prefix_spec Regexp.literal _)
                        (ex_intro _ rest eq_refl)). }
    rewrite Hag. by destruct (Regexp.match_here (Regexp.literal ++ rest)) as [[]|].
  - cbn [app]. rewrite match_here_eq. cbv zeta. rewrite Hr.
    by destruct IH as [[m0 m1] ->].
Qed.

(** The group it takes is the longest that leads to a match. *)
Lemma match_here_greedy rs : ∀ m0 m1 g c rest,
  Regexp.match_here rs = Some (m0, m1) →
  rs = g ++ c :: Regexp.literal ++ rest →
  Forall (λ r, Regexp.any_not_nl r = true) g →
  Regexp.any_not_nl c = true →
  (length g <= length m1)%nat.
Proof.
  induction rs as [|r rs IH]; intros m0 m1 g c rest Hm Hrs Hg Hc; [done|].
  destruct g as [|r' g]; [simpl; lia|].
  assert (r = r' ∧ rs = g ++ c :: Regexp.literal ++ rest) as [<- ->]
    by (by injection Hrs).
  apply Forall_cons in Hg as [Hr Hg].
  rewrite match_here_eq in Hm. cbv zeta in Hm. rewrite Hr in Hm.
  destruct (match_here_complete g c rest Hg Hc) as [[m0' m1'] Hm'].
  rewrite Hm' in Hm. injection Hm as <- <-.
  simpl. apply le_n_S. by eapply IH.
Qed.

(** The match found is the leftmost: nothing can be matched from an
    earlier code point on. *)
Lemma find_leftmost rs m0 m1 :
  Regexp.find rs = Some (m0, m1) →
  ∃ pre rest, rs = pre ++ m0 ++ rest ∧
    Regexp.match_here (m0 ++ rest) = Some (m0, m1) ∧
    ∀ pre' g' c' rest',
      rs = pre' ++ g' ++ c' :: Regexp.literal ++ rest' →
      Forall (λ r, Regexp.any_not_nl r = true) g' →
      Regexp.any_not_nl c' = true →
      (length pre <= length pre')%nat.
Proof.
  induction rs as [|r rs IH]; [done|].
  cbn [Regexp.find]. destruct (Regexp.match_here (r :: rs)) as [[m0' m1']|] eqn:Hm.
  - intros [= -> ->].
    destruct (match_here_sound _ _ _ Hm) as (c & rest & Hrs & _).
    exists [], rest. split_and!; [done|by rewrite <- Hrs|].
    intros pre' g' c' rest' _ _ _. simpl. lia.
  - intros Hf. destruct (IH Hf) as (pre & rest & -> & Hhere & Hleft).
    exists (r :: pre), rest. split_and!; [done|done|].
    intros [|r' pre'] g' c' rest' Heq Hg Hc.
    + destruct (match_here_complete g' c' rest' Hg Hc) as [m Hm'].
      cbn [app] in Heq. rewrite <- Heq in Hm'. by rewrite Hm in Hm'.
    + assert (pre ++ m0 ++ rest = pre' ++ g' ++ c' :: Regexp.literal ++ rest')
        as Heq' by (by injection Heq).
      simpl. apply le_n_S. by eapply Hleft.
Qed.

Lemma runes_nonempty s : EmptyString ∉ Utf8.runes s.
Proof.
  intros Hin. induction s as [|b0 s1 Hst IH] using rune_ind.
  { by apply elem_of_nil in Hin. }
  destruct Hst as [_ Hr| b1 s2 -> _ _ Hr | b1 b2 s3 -> _ _ _ Hr
                  | b1 b2 b3 s4 -> _ _ _ _ Hr];
    rewrite Hr in Hin; apply elem_of_cons in Hin as [?|Hin]; try done;
    apply IH in Hin; try done; simpl; lia.
Qed.

(** X2. Which match the expression finds. Whenever it matches a name, the
    code points of the name are some code points [pre], then group 1, then
    one code point [c] that is not the newline, then the ten letters
    [kubeconfig], then the rest; the match is group 1, [c] and the letters,
    so that the extracted name is followed, exactly one code point later, by
    [kubeconfig], and no name shorter than eleven bytes is matched. Of all
    the ways the expression can match the name, this is the leftmost, and
    among those that start there the one with the longest group: the match
    and the extracted name are fixed by the file name. *)
Theorem X2_shape_of_a_match (s m0 m1 : string) :
  reBuildClusterName_FindStringSubmatch s = Some (m0, m1) →
  ∃ pre g c rest,
    matches_at (Utf8.runes s) pre g c rest ∧
    m1 = Utf8.unrunes g ∧
    m0 = m1 +:+ c +:+ "kubeconfig" ∧
    s = Utf8.unrunes pre +:+ m0 +:+ Utf8.unrunes rest ∧
    c ≠ EmptyString ∧ c ≠ Regexp.newline ∧
    (11 <= String.length s)%nat ∧
    (∀ pre' g' c' rest',
       matches_at (Utf8.runes s) pre' g' c' rest' →
       (length pre <= length pre')%nat ∧
       (length pre' = length pre → (length g' <= length g)%nat)).
Proof.
  unfold reBuildClusterName_FindStringSubmatch.
  destruct (Regexp.find (Utf8.runes s)) as [[r0 r1]|] eqn:Hf; [|done].
  intros [= <- <-].
  destruct (find_leftmost _ _ _ Hf) as (pre & rest & Hs & Hhere & Hleft).
  destruct (match_here_sound _ _ _ Hhere) as (c & rest0 & _ & -> & Hc & Hg).
  assert (Hruns : Utf8.runes s = pre ++ r1 ++ c :: Regexp.literal ++ rest).
  { rewrite Hs. by rewrite <- !app_assoc. }
  assert (Hne : c ≠ EmptyString).
  { intros ->. apply (runes_nonempty s). rewrite Hruns, !elem_of_app, elem_of_cons.
    right; right. by left. }
  assert (Hstr : s = Utf8.unrunes pre
                     +:+ (Utf8.unrunes r1 +:+ c +:+ "kubeconfig")
                     +:+ Utf8.unrunes rest).
  { rewrite <- (unrunes_runes s) at 1. rewrite Hs, !unrunes_app. done. }
  exists pre, r1, c, rest. split_and!.
  - split; [done|]. apply Forall_app. split; [done|by repeat constructor].
  - done.
  - rewrite unrunes_app. done.
  - rewrite unrunes_app. exact Hstr.
  - done.
  - intros ->. by vm_compute in Hc.
  - rewrite Hstr, !length_append. destruct c; [done|]. simpl. lia.
  - intros pre' g' c' rest' [Heq Hall].
    apply Forall_app in Hall as [Hg' Hc']. apply Forall_cons in Hc' as [Hc' _].
    split; [exact (Hleft pre' g' c' rest' Heq Hg' Hc')|]. intros Hlen.
    rewrite Hs in Heq. apply app_inj_1 in Heq as [_ Heq]; [|done].
    exact (match_here_greedy _ _ _ g' c' rest' Hhere Heq Hg' Hc').
Qed.

Lemma X2_shape_of_a_match_witness :
  ∃ pre g c rest,
    matches_at (Utf8.runes "a.kubeconfig.bak") pre g c rest ∧
    "a" = Utf8.unrunes g ∧
    "a.kubeconfig" = "a" +:+ c +:+ "kubeconfig" ∧
    "a.kubeconfig.bak" = Utf8.unrunes pre +:+ "a.kubeconfig" +:+ Utf8.unrunes rest ∧
    c ≠ EmptyString ∧ c ≠ Regexp.newline ∧
    (11 <= String.length "a.kubeconfig.bak")%nat ∧
    (∀ pre' g' c' rest',
       matches_at (Utf8.runes "a.kubeconfig.bak") pre' g' c' rest' →
       (length pre <= length pre')%nat ∧
       (length pre' = length pre → (length g' <= length g)%nat)).
Proof.
  apply (X2_shape_of_a_match "a.kubeconfig.bak" "a.kubeconfig" "a").
  vm_compute. reflexivity.
Defined.

(** X3. The expression is not anchored and its second dot is any
    character: every name in which an ASCII character other than the newline
    stands right before the letters [kubeconfig], wherever that is in the
    name, is matched. *)
Theorem X3_unanchored_match (pre post : string) (c : ascii) :
  (Utf8.byte_val c < 128)%N →
  c ≠ newline_byte →
  is_Some (reBuildClusterName_FindStringSubmatch
             (pre +:+ String c ("kubeconfig" +:+ post))).
Proof.
  intros Hc Hnl. unfold reBuildClusterName_FindStringSubmatch.
  rewrite runes_app by done.
  rewrite runes_ascii_cons, runes_literal_app by done.
  assert (Hf : is_Some (Regexp.find
     (Utf8.runes pre ++ String c EmptyString :: Regexp.literal ++ Utf8.runes post))).
  { apply find_complete. eexists _, _, _. split; [done|].
    unfold Regexp.any_not_nl, Regexp.newline. simpl. fold newline_byte.
    destruct (Ascii.eqb c newline_byte) eqn:He; [|done].
    by apply Ascii.eqb_eq in He. }
  destruct Hf as [[m0 m1] ->]. done.
Qed.

Lemma X3_unanchored_match_witness :
  is_Some (reBuildClusterName_FindStringSubmatch
             ("my" +:+ String "-"%char ("kubeconfig" +:+ "-backup.txt"))).
Proof.
  apply X3_unanchored_match.
  - vm_compute. reflexivity.
  - discriminate.
Defined.

(** ** The scanner, call by call *)

Section Scanner_calls.
Context (w : World) (location : string).

Ltac step_call :=
  eapply runs_bind; [by apply runs_call_ok|]; simpl.

Ltac stop_call :=
  apply runs_bind_err; intros ?; unfold call;
  try match goal with H : ?x = inr _ |- context [?x] => rewrite H end;
  reflexivity.

Ltac calls_ok :=
  repeat constructor; unfold call_ok; simpl;
  repeat match goal with H : _ = inl _ |- _ => rewrite H end; done.

Lemma reads_app t1 t2 : reads (t1 ++ t2) = reads t1 ++ reads t2.
Proof.
  induction t1 as [|ev t1 IH]; [done|]. destruct ev; simpl; by rewrite ?IH.
Qed.

Lemma scan_failure_app tr1 tr2 err :
  Forall (call_ok w) tr1 → scan_failure w tr2 err → scan_failure w (tr1 ++ tr2) err.
Proof.
  intros H1 (pre & ev & e & args & -> & Hpre & Hev & ->).
  exists (tr1 ++ pre), ev, e, args. split_and!; try done.
  - by rewrite app_assoc.
  - by apply Forall_app.
Qed.

(** The Bundle Builder, with what it leaves behind: a bundle that hangs
    together, or the error of the first call that failed. *)
Lemma build_bundle_run fullPath name :
  ∃ r tr, runs (build_bundle w fullPath name) r tr ∧ reads tr = [fullPath] ∧
    match r with
    | inl b =>
        KubeconfigPath b = fullPath ∧ bundle_built w b ∧ Forall (call_ok w) tr
    | inr results => ∃ err, results = (None, Some err) ∧ scan_failure w tr err
    end.
Proof.
  unfold build_bundle.
  destruct (ioutil_ReadFile w fullPath) as [contents|e] eqn:H1.
  2:{ eexists _, _. split; [stop_call|]. split; [done|].
      eexists. split; [done|]. exists [], (E_ReadFile fullPath), e, [ArgString name].
      split_and!; [done|done|simpl; by rewrite H1|done]. }
  destruct (clientcmd_NewClientConfigFromBytes w contents) as [cfg|e] eqn:H2.
  2:{ eexists _, _. split; [step_call; stop_call|]. split; [done|].
      eexists. split; [done|].
      exists [E_ReadFile fullPath], (E_NewClientConfigFromBytes contents), e, [].
      split_and!; [done|calls_ok|simpl; by rewrite H2|done]. }
  destruct (cfg_ClientConfig w cfg) as [c|e] eqn:H3.
  2:{ eexists _, _. split; [do 2 step_call; stop_call|]. split; [done|].
      eexists. split; [done|].
      exists [E_ReadFile fullPath; E_NewClientConfigFromBytes contents],
             (E_ClientConfig cfg), e, [].
      split_and!; [done|calls_ok|simpl; by rewrite H3|done]. }
  destruct (clientset_NewForConfig w c) as [core|e] eqn:H4.
  2:{ eexists _, _. split; [do 3 step_call; stop_call|]. split; [done|].
      eexists. split; [done|].
      exists [E_ReadFile fullPath; E_NewClientConfigFromBytes contents;
              E_ClientConfig cfg], (E_NewCoreClient c), e, [].
      split_and!; [done|calls_ok|simpl; by rewrite H4|done]. }
  destruct (imageclientset_NewForConfig w c) as [image|e] eqn:H5.
  2:{ eexists _, _. split; [do 4 step_call; stop_call|]. split; [done|].
      eexists. split; [done|].
      exists [E_ReadFile fullPath; E_NewClientConfigFromBytes contents;
              E_ClientConfig cfg; E_NewCoreClient c], (E_NewImageClient c), e, [].
      split_and!; [done|calls_ok|simpl; by rewrite H5|done]. }
  destruct (projectclientset_NewForConfig w c) as [project|e] eqn:H6.
  2:{ eexists _, _. split; [do 5 step_call; stop_call|]. split; [done|].
      eexists. split; [done|].
      exists [E_ReadFile fullPath; E_NewClientConfigFromBytes contents;
              E_ClientConfig cfg; E_NewCoreClient c; E_NewImageClient c],
             (E_NewProjectClient c), e, [].
      split_and!; [done|calls_ok|simpl; by rewrite H6|done]. }
  eexists _, _. split; [do 6 step_call; apply runs_ret|]. split; [done|].
  split_and!; [done| |calls_ok].
  exists contents, cfg. by split_and!.
Qed.

Abbreviation joined := (λ f : FileInfo, path_Join w location (Name f)).

(** The loop, with what it leaves behind. When it gets through: every call
    succeeded, the files read are those of the credential entries in the
    order of the listing, a name no entry is filed under keeps its bundle,
    every new bundle hangs together, and an entry that is the last of its
    name has its bundle in the map. When it does not: the trace ends with
    the call that failed, and the files read are those of the credential
    entries up to the first whose bundle cannot be built. *)
Lemma scan_entries_run files m0 :
  ∃ r tr, runs (scan_entries w location files m0) r tr ∧
    match r with
    | inl m =>
        Forall (call_ok w) tr ∧
        reads tr = joined <$> filter credential_entry files ∧
        (∀ name,
           Forall (λ g, credential_entry g → cluster_name g ≠ name) files →
           m !! name = m0 !! name) ∧
        (∀ name b, m !! name = Some b → m0 !! name = Some b ∨ bundle_built w b) ∧
        (∀ l1 f l2, files = l1 ++ f :: l2 → credential_entry f →
           last_of_its_name f l2 →
           ∃ b, m !! cluster_name f = Some b ∧ KubeconfigPath b = joined f)
    | inr results =>
        ∃ err, results = (None, Some err) ∧ scan_failure w tr err ∧
          ∃ l1 f l2, filter credential_entry files = l1 ++ f :: l2 ∧
            Forall (λ g, ¬ builder_fails w (joined g)) l1 ∧
            builder_fails w (joined f) ∧
            reads tr = joined <$> (l1 ++ [f])
    end.
Proof.
  revert m0. induction files as [|file files IH]; intros m0.
  { exists (inl m0), []. split; [apply runs_ret|]. split_and!; try done.
    - intros name b ?. by left.
    - intros [|g l1] f l2 ?; simplify_eq. }
  cbn [scan_entries].
  destruct (decide (credential_entry file)) as [Hc|Hc].
  2:{ rewrite scan_entry_ignored by done.
      destruct (IH m0) as (r & tr & Hr & Hpost).
      exists r, tr. split.
      { apply (runs_bind _ _ _ [] _ _ (runs_ret m0) Hr). }
      rewrite filter_cons_False by done.
      destruct r as [m|results]; [|done].
      destruct Hpost as (Hok & Hreads & Hframe & Hbuilt & Hlast).
      split_and!; try done.
      - intros name Hall. apply Hframe. by apply Forall_cons in Hall as [_ ?].
      - intros [|g l1] f l2 Heq Hf Hl2; simplify_eq/=; [done|].
        by eapply Hlast. }
  rewrite scan_entry_credential by done.
  rewrite filter_cons_True by done.
  destruct (build_bundle_total w (joined file) (Name file))
    as (rb & trb & Hrb & _ & _ & Hbf & _).
  destruct (build_bundle_run (joined file) (Name file))
    as (rb' & trb' & Hrb' & Hreadb & Hpostb).
  destruct (runs_det _ _ _ _ _ Hrb' Hrb) as [-> ->]. clear Hrb'.
  destruct rb as [b|results].
  2:{ exists (inr results), trb. split.
      { do 2 apply runs_bind_err. exact Hrb. }
      destruct Hpostb as (err & -> & Hfail).
      exists err. split_and!; try done.
      exists [], file, (filter credential_entry files).
      split_and!; [done|done|by apply Hbf|done]. }
  destruct Hpostb as (Hpath & Hb & Hokb).
  destruct (IH (<[cluster_name file := b]> m0)) as (r & tr & Hr & Hpost).
  exists r, (trb ++ tr). split.
  { eapply runs_bind; [|exact Hr].
    rewrite <- (app_nil_r trb). eapply runs_bind; [exact Hrb|apply runs_ret]. }
  destruct r as [m|results].
  - destruct Hpost as (Hok & Hreads & Hframe & Hbuilt & Hlast).
    split_and!.
    + by apply Forall_app.
    + by rewrite reads_app, Hreadb, Hreads, fmap_cons.
    + intros name Hall. apply Forall_cons in Hall as [Hne Hall].
      rewrite (Hframe name Hall). apply lookup_insert_ne. by apply Hne.
    + intros name b' Hb'. destruct (Hbuilt name b' Hb') as [Hin|?]; [|by right].
      destruct (decide (cluster_name file = name)) as [<-|Hne].
      * rewrite lookup_insert_eq in Hin. simplify_eq. by right.
      * rewrite lookup_insert_ne in Hin by done. by left.
    + intros [|g l1] f l2 Heq Hf Hl2; simplify_eq/=; [|by eapply Hlast].
      exists b. split; [|done].
      rewrite (Hframe (cluster_name f) Hl2). apply lookup_insert_eq.
  - destruct Hpost as (err & -> & Hfail & l1 & f & l2 & Hfilter & Hl1 & Hf & Hreads).
    exists err. split_and!; [done|by apply scan_failure_app|].
    exists (file :: l1), f, l2. split_and!.
    + by rewrite Hfilter.
    + constructor; [|done]. intros Hbad. by apply Hbf in Hbad.
    + done.
    + by rewrite reads_app, Hreadb, Hreads.
Qed.

(** The scanner as the listing and then the loop. *)
Lemma readBuildClusterKubeConfigs_run :
  ∃ res tr,
    (∀ t, readBuildClusterKubeConfigs w location t = (res, t ++ tr)) ∧
    match ioutil_ReadDir w location with
    | inr e =>
        res = (None, Some (Errorf "unable to access location %q: %v"
                                  [ArgString location; ArgError e])) ∧
        tr = [E_ReadDir location]
    | inl files =>
        ∃ r tr', tr = E_ReadDir location :: tr' ∧
          runs (scan_entries w location files ∅) r tr' ∧
          res = match r with
                | inl m => (Some m, None)
                | inr results => results
                end
    end.
Proof.
  unfold readBuildClusterKubeConfigs.
  destruct (ioutil_ReadDir w location) as [files|e] eqn:Hd.
  2:{ eexists _, _. split; [intros t; by unfold bind, call|done]. }
  destruct (scan_entries_run files ∅) as (r & tr & Hr & _).
  exists (match r with inl m => (Some m, None) | inr results => results end),
         (E_ReadDir location :: tr). split.
  - intros t. unfold bind, call.
    rewrite (Hr (t ++ [E_ReadDir location])), <- app_assoc. simpl.
    by destruct r.
  - by exists r, tr.
Qed.

End Scanner_calls.

(** X4. Two entries of the listing may be filed under one name, since the
    expression is not anchored: line 177 then overwrites the bundle, and
    the map holds, under that name, the bundle of the entry that comes last
    in the listing. With [a.kubeconfig] and a copy [a.kubeconfig.bak] beside
    it, cluster [a] gets the bundle of the copy. *)
Theorem X4_last_entry_of_a_name_wins (w : World) (location : string)
    (l1 : list FileInfo) (f : FileInfo) (l2 : list FileInfo)
    (m : BuildClusterClientConfigMap) (t t1 : trace) :
  ioutil_ReadDir w location = inl (l1 ++ f :: l2) →
  readBuildClusterKubeConfigs w location t = ((Some m, None), t1) →
  credential_entry f →
  last_of_its_name f l2 →
  ∃ b, m !! cluster_name f = Some b ∧
       KubeconfigPath b = path_Join w location (Name f).
Proof.
  intros Hd Hscan Hf Hl2.
  destruct (readBuildClusterKubeConfigs_run w location) as (res & tr & Heq & Hcase).
  rewrite Heq in Hscan. rewrite Hd in Hcase.
  destruct Hcase as (r & tr' & -> & Hr & ->).
  destruct (scan_entries_run w location (l1 ++ f :: l2) ∅) as (r' & tr'' & Hr' & Hpost).
  destruct (runs_det _ _ _ _ _ Hr Hr') as [<- <-].
  destruct r as [m'|results].
  - simplify_eq. destruct Hpost as (_ & _ & _ & _ & Hlast). by eapply Hlast.
  - destruct Hpost as (err & -> & _). simplify_eq.
Qed.

Lemma X4_last_entry_of_a_name_wins_witness :
  ∃ b, ({[ "a" := bundle_at bak_path 19 ]} : BuildClusterClientConfigMap)
         !! cluster_name (regular "a.kubeconfig.bak") = Some b ∧
       KubeconfigPath b
       = path_Join w_backup_file kubeconfigs_dir (Name (regular "a.kubeconfig.bak")).
Proof.
  apply (X4_last_entry_of_a_name_wins w_backup_file kubeconfigs_dir
           [regular "a.kubeconfig"] (regular "a.kubeconfig.bak") []
           {[ "a" := bundle_at bak_path 19 ]} []
           [E_ReadDir kubeconfigs_dir;
            E_ReadFile a_path;
            E_NewClientConfigFromBytes "credentials of a";
            E_ClientConfig (ClientConfigAt 16);
            E_NewCoreClient (RestConfigAt 16);
            E_NewImageClient (RestConfigAt 16);
            E_NewProjectClient (RestConfigAt 16);
            E_ReadFile bak_path;
            E_NewClientConfigFromBytes "an older credential";
            E_ClientConfig (ClientConfigAt 19);
            E_NewCoreClient (RestConfigAt 19);
            E_NewImageClient (RestConfigAt 19);
            E_NewProjectClient (RestConfigAt 19)]).
  - reflexivity.
  - vm_compute. reflexivity.
  - split; [reflexivity|]. eexists. vm_compute. reflexivity.
  - constructor.
Defined.

(** X5. The scan gives a map and no error exactly when the directory can
    be listed and no credential entry of the listing has a bundle that
    cannot be built; and its two results are never both [nil] nor both
    set: it gives a map and no error, or no map and an error. *)
Theorem X5_scan_succeeds_iff (w : World) (location : string) (t : trace) :
  ((∃ m, (readBuildClusterKubeConfigs w location t).1 = (Some m, None)) ↔
   (∃ files, ioutil_ReadDir w location = inl files ∧
             ¬ Exists (entry_fails w location) files))
  ∧ ((∃ m, (readBuildClusterKubeConfigs w location t).1 = (Some m, None)) ∨
     (∃ err, (readBuildClusterKubeConfigs w location t).1 = (None, Some err))).
Proof.
  destruct (readBuildClusterKubeConfigs_total w location)
    as (res & tr & Heq & _ & Hres).
  rewrite Heq. simpl.
  destruct (ioutil_ReadDir w location) as [files|e].
  - destruct Hres as [[Hex [err ->]]|[Hno (m & -> & _)]].
    + split; [|right; eauto]. split.
      * intros [m ?]. simplify_eq.
      * intros (files' & ? & Hno). simplify_eq. by destruct Hno.
    + split; [|left; eauto]. split; [|eauto]. intros _. by exists files.
  - destruct Hres as [err ->]. split; [|right; eauto]. split.
    + intros [m ?]. simplify_eq.
    + intros (files & ? & _). simplify_eq.
Qed.

(** X6. The scan stops at the first call that fails. When it returns an
    error, the map it returns is [nil], every call it made but the last
    succeeded, the last one failed, and the error is the message of that
    step of the code with the error of the call as its last argument. *)
Theorem X6_scan_stops_at_the_first_failed_call (w : World) (location : string)
    (t : trace) (mo : option BuildClusterClientConfigMap) (err : error)
    (t1 : trace) :
  readBuildClusterKubeConfigs w location t = ((mo, Some err), t1) →
  mo = None ∧ ∃ tr, t1 = t ++ tr ∧ scan_failure w tr err.
Proof.
  intros Hscan.
  destruct (readBuildClusterKubeConfigs_run w location) as (res & tr & Heq & Hcase).
  rewrite Heq in Hscan.
  destruct (ioutil_ReadDir w location) as [files|e] eqn:Hd.
  - destruct Hcase as (r & tr' & -> & Hr & ->).
    destruct (scan_entries_run w location files ∅) as (r' & tr'' & Hr' & Hpost).
    destruct (runs_det _ _ _ _ _ Hr Hr') as [<- <-].
    destruct r as [m'|results]; [simplify_eq|].
    destruct Hpost as (err' & -> & Hfail & _). simplify_eq.
    split; [done|]. eexists. split; [done|].
    apply (scan_failure_app w [E_ReadDir location]); [|done].
    repeat constructor. unfold call_ok. simpl. by rewrite Hd.
  - destruct Hcase as [-> ->]. simplify_eq. split; [done|].
    eexists. split; [done|].
    exists [], (E_ReadDir location), e, [ArgString location].
    split_and!; [done|done| |done]. simpl. by rewrite Hd.
Qed.

Lemma X6_scan_stops_at_the_first_failed_call_witness :
  (None : option BuildClusterClientConfigMap) = None ∧
  ∃ tr,
    [E_ReadDir kubeconfigs_dir;
     E_ReadFile a_path;
     E_NewClientConfigFromBytes "credentials of a";
     E_ClientConfig (ClientConfigAt 16);
     E_NewCoreClient (RestConfigAt 16);
     E_NewImageClient (RestConfigAt 16);
     E_NewProjectClient (RestConfigAt 16);
     E_ReadFile b_path;
     E_NewClientConfigFromBytes "malformed"] = [] ++ tr ∧
    scan_failure w_valid_and_malformed tr
      (Errorf "could not load build client configuration: %v"
              [ArgError (LibError "yaml: invalid")]).
Proof.
  apply (X6_scan_stops_at_the_first_failed_call
           w_valid_and_malformed kubeconfigs_dir []).
  vm_compute. reflexivity.
Defined.

(** X7. The files the scan reads. It reads the files of the credential
    entries at the joined paths, each once and in the order of the listing,
    and no other file; when a bundle cannot be built, the file of that
    entry is the last one read. *)
Theorem X7_files_read (w : World) (location : string) (files : list FileInfo)
    (t : trace) :
  ioutil_ReadDir w location = inl files →
  ∃ tr,
    (readBuildClusterKubeConfigs w location t).2 = t ++ E_ReadDir location :: tr ∧
    ((∃ m, (readBuildClusterKubeConfigs w location t).1 = (Some m, None) ∧
           reads tr = (λ f, path_Join w location (Name f))
                        <$> filter credential_entry files)
     ∨ (∃ err l1 f l2,
          (readBuildClusterKubeConfigs w location t).1 = (None, Some err) ∧
          filter credential_entry files = l1 ++ f :: l2 ∧
          Forall (λ g, ¬ builder_fails w (path_Join w location (Name g))) l1 ∧
          builder_fails w (path_Join w location (Name f)) ∧
          reads tr = (λ f, path_Join w location (Name f)) <$> (l1 ++ [f]))).
Proof.
  intros Hd.
  destruct (readBuildClusterKubeConfigs_run w location) as (res & tr & Heq & Hcase).
  rewrite Heq. rewrite Hd in Hcase.
  destruct Hcase as (r & tr' & -> & Hr & ->).
  destruct (scan_entries_run w location files ∅) as (r' & tr'' & Hr' & Hpost).
  destruct (runs_det _ _ _ _ _ Hr Hr') as [<- <-].
  exists tr'. split; [done|]. simpl.
  destruct r as [m|results].
  - left. exists m. by destruct Hpost as (_ & ? & _).
  - right. destruct Hpost as (err & -> & _ & l1 & f & l2 & ? & ? & ? & ?).
    by exists err, l1, f, l2.
Qed.

Lemma X7_files_read_witness :
  ∃ tr,
    (readBuildClusterKubeConfigs w_valid_and_malformed kubeconfigs_dir []).2
    = [] ++ E_ReadDir kubeconfigs_dir :: tr ∧
    ((∃ m, (readBuildClusterKubeConfigs w_valid_and_malformed kubeconfigs_dir []).1
           = (Some m, None) ∧
           reads tr = (λ f, path_Join w_valid_and_malformed kubeconfigs_dir (Name f))
                        <$> filter credential_entry
                              [regular "a.kubeconfig"; regular "b.kubeconfig"])
     ∨ (∃ err l1 f l2,
          (readBuildClusterKubeConfigs w_valid_and_malformed kubeconfigs_dir []).1
          = (None, Some err) ∧
          filter credential_entry [regular "a.kubeconfig"; regular "b.kubeconfig"]
          = l1 ++ f :: l2 ∧
          Forall (λ g, ¬ builder_fails w_valid_and_malformed
                           (path_Join w_valid_and_malformed kubeconfigs_dir (Name g)))
                 l1 ∧
          builder_fails w_valid_and_malformed
            (path_Join w_valid_and_malformed kubeconfigs_dir (Name f)) ∧
          reads tr = (λ f, path_Join w_valid_and_malformed kubeconfigs_dir (Name f))
                       <$> (l1 ++ [f]))).
Proof.
  apply (X7_files_read w_valid_and_malformed kubeconfigs_dir
           [regular "a.kubeconfig"; regular "b.kubeconfig"] []).
  reflexivity.
Defined.

(** X8. Every bundle of a map the scan returns hangs together: its
    configuration is the one resolved from the contents of the file at its
    [KubeconfigPath], its [CoreClient] was made from that configuration by
    the core constructor, its [TargetImageClient] by the image constructor
    and its [ProjectClient] by the project constructor. *)
Theorem X8_bundles_hang_together (w : World) (location : string)
    (m : BuildClusterClientConfigMap) (t t1 : trace) :
  readBuildClusterKubeConfigs w location t = ((Some m, None), t1) →
  map_Forall (λ _ b, bundle_built w b) m.
Proof.
  intros Hscan.
  destruct (readBuildClusterKubeConfigs_run w location) as (res & tr & Heq & Hcase).
  rewrite Heq in Hscan.
  destruct (ioutil_ReadDir w location) as [files|e] eqn:Hd.
  2:{ destruct Hcase as [-> ->]. simplify_eq. }
  destruct Hcase as (r & tr' & -> & Hr & ->).
  destruct (scan_entries_run w location files ∅) as (r' & tr'' & Hr' & Hpost).
  destruct (runs_det _ _ _ _ _ Hr Hr') as [<- <-].
  destruct r as [m'|results].
  - simplify_eq. destruct Hpost as (_ & _ & _ & Hbuilt & _).
    intros name b Hb. destruct (Hbuilt name b Hb) as [Hin|?]; [|done].
    by rewrite lookup_empty in Hin.
  - destruct Hpost as (err & -> & _). simplify_eq.
Qed.

Lemma X8_bundles_hang_together_witness :
  map_Forall (λ _ b, bundle_built w_notes b)
    ({[ "a" := bundle_at a_path 16 ]} : BuildClusterClientConfigMap).
Proof.
  apply (X8_bundles_hang_together w_notes kubeconfigs_dir
           {[ "a" := bundle_at a_path 16 ]} []
           [E_ReadDir kubeconfigs_dir;
            E_ReadFile a_path;
            E_NewClientConfigFromBytes "credentials of a";
            E_ClientConfig (ClientConfigAt 16);
            E_NewCoreClient (RestConfigAt 16);
            E_NewImageClient (RestConfigAt 16);
            E_NewProjectClient (RestConfigAt 16)]).
  vm_compute. reflexivity.
Defined.

(** ** The watch set-up when a watch cannot be added *)

Section Watch_calls.
Context (w : World).

(** The loop returns early at the first bundle whose file is there and
    whose watch cannot be added, having done on the bundles before it what
    it does when it gets through them. *)
Lemma watch_clusters_failure clusters :
  ∃ r tr, runs (watch_clusters w clusters) r tr ∧
    match r with
    | inl _ => True
    | inr err =>
        ∃ l1 c l2 e pre,
          clusters = l1 ++ c :: l2 ∧ present w c ∧
          watcher_Add w (KubeconfigPath c.2) = Some e ∧
          err = Errorf "failed to watch %v: %w" [ArgCluster c.2; ArgError e] ∧
          runs (watch_clusters w l1) (inl tt) pre ∧
          tr = pre ++ [E_Stat (KubeconfigPath c.2) None;
                       E_WatcherAdd (KubeconfigPath c.2) (Some e)]
    end.
Proof.
  induction clusters as [|[name cluster] clusters IH].
  { exists (inl tt), []. split; [apply runs_ret|done]. }
  destruct IH as (r & tr & Hr & Hpost).
  cbn [watch_clusters].
  set (p := KubeconfigPath cluster).
  destruct (os_Stat w p) as [e0|] eqn:Hst.
  - exists r, (E_Stat p (Some e0) :: tr). split.
    { apply (runs_bind _ _ _ [_] _ _ (runs_perform _ _) Hr). }
    destruct r as [[]|err]; [done|].
    destruct Hpost as (l1 & c & l2 & e & pre & -> & Hc & Hadd & -> & Hpre & ->).
    exists ((name, cluster) :: l1), c, l2, e, (E_Stat p (Some e0) :: pre).
    split_and!; try done.
    cbn [watch_clusters]. fold p. rewrite Hst.
    apply (runs_bind _ _ _ [_] _ _ (runs_perform _ _) Hpre).
  - destruct (watcher_Add w p) as [e|] eqn:Hadd.
    + eexists _, [E_Stat p None; E_WatcherAdd p (Some e)]. split.
      { apply (runs_bind _ _ _ [_] _ _ (runs_perform _ _)).
        apply runs_bind_err. by apply runs_call_err. }
      exists [], (name, cluster), clusters, e, [].
      split_and!; try done. apply runs_ret.
    + exists r, (E_Stat p None :: E_WatcherAdd p None :: tr). split.
      { apply (runs_bind _ _ _ [_] _ _ (runs_perform _ _)).
        apply (runs_bind _ _ tt [_]); [by apply runs_call_ok|done]. }
      destruct r as [[]|err]; [done|].
      destruct Hpost as (l1 & c & l2 & e & pre & -> & Hc & Hadd' & -> & Hpre & ->).
      exists ((name, cluster) :: l1), c, l2, e,
             (E_Stat p None :: E_WatcherAdd p None :: pre).
      split_and!; try done.
      cbn [watch_clusters]. fold p. rewrite Hst, Hadd.
      apply (runs_bind _ _ _ [_] _ _ (runs_perform _ _)).
      apply (runs_bind _ _ tt [_]); [by apply runs_call_ok|done].
Qed.

End Watch_calls.

(** X9. A watch that cannot be added ends the set-up. When the watcher was
    made and the set-up returns an error, the error is that of
    [watcher.Add] on the first bundle of the range whose file is there
    and whose watch was refused, wrapped with the bundle; the bundles before
    it in the range were looked at and those whose file is there keep their
    watch; the bundles after it were not looked at; and the event loop was
    not started. *)
Theorem X9_failed_watch_ends_the_setup (w : World)
    (clusters : BuildClusterClientConfigMap) (t : trace) (err : error)
    (t' : trace) :
  fsnotify_NewWatcher w = None →
  setupKubeconfigWatches w clusters t = (Some err, t') →
  ∃ l1 c l2 e pre tr,
    range_order w clusters = l1 ++ c :: l2 ∧
    os_Stat w (KubeconfigPath c.2) = None ∧
    watcher_Add w (KubeconfigPath c.2) = Some e ∧
    err = Errorf "failed to watch %v: %w" [ArgCluster c.2; ArgError e] ∧
    t' = t ++ tr ∧
    tr = E_NewWatcher :: pre ++ [E_Stat (KubeconfigPath c.2) None;
                                 E_WatcherAdd (KubeconfigPath c.2) (Some e)] ∧
    Forall (watch_call w l1) pre ∧
    watched tr = (λ c, KubeconfigPath c.2) <$> filter (present w) l1 ∧
    E_GoEventLoop ∉ tr.
Proof.
  intros Hnw Hsetup.
  destruct (setupKubeconfigWatches_total w clusters) as (r & tr & Heq & _ & Hcase).
  rewrite Heq in Hsetup. rewrite Hnw in Hcase.
  destruct Hcase as (r' & tr' & Hr' & _ & Hcase).
  destruct (watch_clusters_failure w (range_order w clusters))
    as (r'' & tr'' & Hr'' & Hpost).
  destruct (runs_det _ _ _ _ _ Hr' Hr'') as [<- <-].
  destruct r' as [[]|err']; destruct Hcase as [-> ->]; simplify_eq.
  destruct Hpost as (l1 & c & l2 & e & pre & Hl & Hc & Hadd & -> & Hpre & ->).
  destruct (watch_clusters_total w l1) as (r0 & tr0 & Hr0 & Hcalls & _ & Hwatched).
  destruct (runs_det _ _ _ _ _ Hpre Hr0) as [<- <-].
  exists l1, c, l2, e, pre. eexists. split_and!; try done.
  - change (E_NewWatcher :: pre ++ ?l) with ([E_NewWatcher] ++ pre ++ l).
    rewrite !watched_app. simpl. rewrite app_nil_r. by apply Hwatched.
  - rewrite elem_of_cons, elem_of_app, !elem_of_cons, elem_of_nil.
    intros [?|[Hin|[?|[?|[]]]]]; try done.
    rewrite Forall_forall in Hcalls. by apply Hcalls in Hin.
Qed.

Lemma X9_failed_watch_ends_the_setup_witness :
  ∃ l1 c l2 e pre tr,
    range_order w_second_watch_fails
      (<[ "a" := bundle_at a_path 16 ]> {[ "b" := bundle_at b_path 17 ]})
    = l1 ++ c :: l2 ∧
    os_Stat w_second_watch_fails (KubeconfigPath c.2) = None ∧
    watcher_Add w_second_watch_fails (KubeconfigPath c.2) = Some e ∧
    Errorf "failed to watch %v: %w"
      [ArgCluster (bundle_at b_path 17); ArgError watch_limit]
    = Errorf "failed to watch %v: %w" [ArgCluster c.2; ArgError e] ∧
    [E_NewWatcher; E_Stat a_path None; E_WatcherAdd a_path None;
     E_Stat b_path None; E_WatcherAdd b_path (Some watch_limit)] = [] ++ tr ∧
    tr = E_NewWatcher :: pre ++ [E_Stat (KubeconfigPath c.2) None;
                                 E_WatcherAdd (KubeconfigPath c.2) (Some e)] ∧
    Forall (watch_call w_second_watch_fails l1) pre ∧
    watched tr
    = (λ c, KubeconfigPath c.2) <$> filter (present w_second_watch_fails) l1 ∧
    E_GoEventLoop ∉ tr.
Proof.
  apply (X9_failed_watch_ends_the_setup w_second_watch_fails
           (<[ "a" := bundle_at a_path 16 ]> {[ "b" := bundle_at b_path 17 ]}) []).
  - reflexivity.
  - vm_compute. reflexivity.
Defined.

(** X10. The event loop is started exactly when the set-up returns [nil]:
    in every world the set-up begins by making the watcher, and the
    goroutine of lines 203-212 is in its trace if and only if it returns no
    error, as the last thing done. After a set-up that failed, which [run]
    only logs, nothing waits for the events of the watches. *)
Theorem X10_event_loop_iff_setup_succeeds (w : World)
    (clusters : BuildClusterClientConfigMap) (t : trace) :
  ∃ r tr,
    setupKubeconfigWatches w clusters t = (r, t ++ E_NewWatcher :: tr) ∧
    (r = None ↔ E_GoEventLoop ∈ tr) ∧
    (r = None → ∃ tr', tr = tr' ++ [E_GoEventLoop] ∧ E_GoEventLoop ∉ tr').
Proof.
  destruct (setupKubeconfigWatches_total w clusters) as (r & tr & Heq & _ & Hcase).
  destruct (fsnotify_NewWatcher w) as [e|].
  { destruct Hcase as [-> ->]. exists (Some (Errorf "failed to set up watcher: %w"
                                                     [ArgError e])), [].
    split; [apply Heq|]. split; [|done]. split; [done|].
    by intros ?%elem_of_nil. }
  destruct Hcase as (r' & tr' & Hr' & Hcalls & Hcase).
  assert (Hno : E_GoEventLoop ∉ tr').
  { intros Hin. rewrite Forall_forall in Hcalls. by apply Hcalls in Hin. }
  destruct r' as [[]|e]; destruct Hcase as [-> ->].
  - exists None, (tr' ++ [E_GoEventLoop]). split; [apply Heq|]. split.
    + split; [intros _|done]. apply elem_of_app. right. by left.
    + intros _. by exists tr'.
  - exists (Some e), tr'. split; [apply Heq|]. by split.
Qed.

(** ** The event loop and the retry loop, in every case *)

Lemma eventLoop_chmod_only events t :
  Forall (λ e, ev_Op e = fsnotify.Chmod) events →
  eventLoop events t = (Watching, t).
Proof.
  intros H. induction H as [|e events He _ IH]; [done|].
  cbn [eventLoop]. unfold on_event. by rewrite He, Z.eqb_refl.
Qed.

Lemma on_event_other e t :
  ev_Op e ≠ fsnotify.Chmod →
  on_event e t = (Exited 0, t ++ [E_Infof kubeconfig_changed e; E_Exit 0]).
Proof. intros He. unfold on_event. apply Z.eqb_neq in He. by rewrite He. Qed.

Lemma eventLoop_first_other pre e post t :
  Forall (λ e, ev_Op e = fsnotify.Chmod) pre →
  ev_Op e ≠ fsnotify.Chmod →
  eventLoop (pre ++ e :: post) t
  = (Exited 0, t ++ [E_Infof kubeconfig_changed e; E_Exit 0]).
Proof.
  intros Hpre He.
  induction Hpre as [|e' pre He' _ IH]; cbn [app eventLoop].
  - by rewrite on_event_other.
  - unfold on_event at 1. by rewrite He', Z.eqb_refl.
Qed.

(** X11. The event loop in every case. Whatever the events are, either
    all of them are [Chmod] alone and the loop is still watching, having
    done nothing, or the loop has logged the first event that is not and
    ended the process with status 0: it logs at most once and exits with no
    other status. The test of line 205 compares the whole of [Op]: an event
    that carries any bit [Chmod] does not have, also beside [Chmod], ends
    the process. *)
Theorem X11_event_loop_in_every_case (events : list fsnotify_Event) (t : trace) :
  ((Forall (λ e, ev_Op e = fsnotify.Chmod) events ∧
    eventLoop events t = (Watching, t))
   ∨ (∃ pre e post,
        events = pre ++ e :: post ∧
        Forall (λ e, ev_Op e = fsnotify.Chmod) pre ∧
        ev_Op e ≠ fsnotify.Chmod ∧
        eventLoop events t
        = (Exited 0, t ++ [E_Infof kubeconfig_changed e; E_Exit 0])))
  ∧ (∀ e i,
       Z.testbit (ev_Op e) i = true → Z.testbit fsnotify.Chmod i = false →
       on_event e t = (Exited 0, t ++ [E_Infof kubeconfig_changed e; E_Exit 0]))
  ∧ on_event write_chmod_event t
    = (Exited 0, t ++ [E_Infof kubeconfig_changed write_chmod_event; E_Exit 0]).
Proof.
  split_and!.
  - induction events as [|e events IH]; [by left|].
    destruct (decide (ev_Op e = fsnotify.Chmod)) as [He|He].
    + destruct IH as [[Hall Hloop]|(pre & e' & post & -> & Hpre & He' & Hloop)].
      * left. split; [by constructor|]. apply eventLoop_chmod_only. by constructor.
      * right. exists (e :: pre), e', post. split_and!; try done; [by constructor|].
        apply (eventLoop_first_other (e :: pre)); [by constructor|done].
    + right. exists [], e, events. split_and!; try done.
      by apply (eventLoop_first_other []).
  - intros e i Hi Hc. apply on_event_other. intros Heq. congruence.
  - reflexivity.
Qed.

(** The calls of the loop are starts of the bot and pauses. *)
Lemma rounds_loop_events k : ∀ n, Forall loop_event (rounds n k).
Proof. induction k as [|k IH]; intros n; simpl; by repeat constructor. Qed.

(** The retry loop in every case, from the [n]-th start on. *)
Lemma bot_loop_cases w fuel : ∀ n t,
  (∃ k e, (k < fuel)%nat ∧
      (∀ i, (n <= i < n + k)%nat → retried w (bot_Start w i)) ∧
      bot_Start w (n + k) = BotReturns (Some e) ∧ isRetriable w e = false ∧
      bot_loop w fuel n t
      = (Returned (Some e), t ++ rounds n k ++ [E_BotStart (n + k)]))
  ∨ (∃ k, (k < fuel)%nat ∧
      (∀ i, (n <= i < n + k)%nat → retried w (bot_Start w i)) ∧
      bot_Start w (n + k) = BotKeepsRunning ∧
      bot_loop w fuel n t = (InsideBot, t ++ rounds n k ++ [E_BotStart (n + k)]))
  ∨ ((∀ i, (n <= i < n + fuel)%nat → retried w (bot_Start w i)) ∧
     bot_loop w fuel n t = (StillRetrying, t ++ rounds n fuel)).
Proof.
  induction fuel as [|fuel IH]; intros n t.
  { right; right. split; [intros i Hi; lia|]. simpl. by rewrite app_nil_r. }
  assert (Hagain : retried w (bot_Start w n) →
    bot_loop w (S fuel) n t
    = bot_loop w fuel (S n) ((t ++ [E_BotStart n]) ++ [E_Sleep (5 * time_Second)]) →
    (∃ k e, (k < S fuel)%nat ∧
      (∀ i, (n <= i < n + k)%nat → retried w (bot_Start w i)) ∧
      bot_Start w (n + k) = BotReturns (Some e) ∧ isRetriable w e = false ∧
      bot_loop w (S fuel) n t
      = (Returned (Some e), t ++ rounds n k ++ [E_BotStart (n + k)]))
    ∨ (∃ k, (k < S fuel)%nat ∧
      (∀ i, (n <= i < n + k)%nat → retried w (bot_Start w i)) ∧
      bot_Start w (n + k) = BotKeepsRunning ∧
      bot_loop w (S fuel) n t = (InsideBot, t ++ rounds n k ++ [E_BotStart (n + k)]))
    ∨ ((∀ i, (n <= i < n + S fuel)%nat → retried w (bot_Start w i)) ∧
       bot_loop w (S fuel) n t = (StillRetrying, t ++ rounds n (S fuel)))).
  { intros Hn ->.
    assert (Hall : ∀ k, (∀ i, (S n <= i < S n + k)%nat → retried w (bot_Start w i)) →
                        ∀ i, (n <= i < S n + k)%nat → retried w (bot_Start w i)).
    { intros k Hk i Hi. destruct (decide (i = n)) as [->|]; [done|]. apply Hk. lia. }
    destruct (IH (S n) ((t ++ [E_BotStart n]) ++ [E_Sleep (5 * time_Second)]))
      as [(k & e & Hk & Hret & Hstart & Hre & ->)
         |[(k & Hk & Hret & Hstart & ->)|(Hret & ->)]].
    - left. exists (S k), e. replace (n + S k)%nat with (S n + k)%nat by lia.
      split_and!; try done; [lia|by apply Hall|].
      simpl. by rewrite <- !app_assoc.
    - right; left. exists (S k). replace (n + S k)%nat with (S n + k)%nat by lia.
      split_and!; try done; [lia|by apply Hall|].
      simpl. by rewrite <- !app_assoc.
    - right; right. replace (n + S fuel)%nat with (S n + fuel)%nat by lia.
      split; [by apply Hall|]. simpl. by rewrite <- !app_assoc. }
  destruct (bot_Start w n) as [[e|]|] eqn:Hn;
    [destruct (isRetriable w e) eqn:Hre|..].
  - apply Hagain; [right; by exists e|]. simpl. by rewrite Hn, Hre.
  - left. exists 0%nat, e. rewrite Nat.add_0_r.
    split_and!; try done; [lia|intros i Hi; lia|]. simpl. by rewrite Hn, Hre.
  - apply Hagain; [by left|]. simpl. by rewrite Hn.
  - right; left. exists 0%nat. rewrite Nat.add_0_r.
    split_and!; try done; [lia|intros i Hi; lia|]. simpl. by rewrite Hn.
Qed.

Lemma bot_loop_never_nil w fuel n t :
  ∃ tr, Forall loop_event tr ∧
    ((∃ e, bot_loop w fuel n t = (Returned (Some e), t ++ tr)) ∨
     bot_loop w fuel n t = (InsideBot, t ++ tr) ∨
     bot_loop w fuel n t = (StillRetrying, t ++ tr)).
Proof.
  destruct (bot_loop_cases w fuel n t)
    as [(k & e & _ & _ & _ & _ & ->)|[(k & _ & _ & _ & ->)|(_ & ->)]].
  - eexists. split; [|left; by exists e].
    apply Forall_app. split; [apply rounds_loop_events|by repeat constructor].
  - eexists. split; [|right; by left].
    apply Forall_app. split; [apply rounds_loop_events|by repeat constructor].
  - eexists. split; [|right; by right]. apply rounds_loop_events.
Qed.

(** X12. The retry loop in every case. As far as the loop is followed,
    one of three things has happened: after some number of returns that
    were [nil] or retriable, each followed by a pause of five seconds, the
    bot returned an error that is not retriable and the loop returned that
    error; or after such returns the bot was started and has not come back;
    or every return so far was [nil] or retriable and the loop goes on. The
    loop never returns [nil], and a [nil] return of the bot never ends it. *)
Theorem X12_retry_loop_in_every_case (w : World) (fuel : nat) (t : trace) :
  (∃ k e, (k < fuel)%nat ∧
      (∀ i, (i < k)%nat → retried w (bot_Start w i)) ∧
      bot_Start w k = BotReturns (Some e) ∧ isRetriable w e = false ∧
      bot_loop w fuel 0 t
      = (Returned (Some e), t ++ rounds 0 k ++ [E_BotStart k]))
  ∨ (∃ k, (k < fuel)%nat ∧
      (∀ i, (i < k)%nat → retried w (bot_Start w i)) ∧
      bot_Start w k = BotKeepsRunning ∧
      bot_loop w fuel 0 t = (InsideBot, t ++ rounds 0 k ++ [E_BotStart k]))
  ∨ ((∀ i, (i < fuel)%nat → retried w (bot_Start w i)) ∧
     bot_loop w fuel 0 t = (StillRetrying, t ++ rounds 0 fuel)).
Proof.
  destruct (bot_loop_cases w fuel 0 t)
    as [(k & e & Hk & Hret & Hstart & Hre & Hloop)
       |[(k & Hk & Hret & Hstart & Hloop)|(Hret & Hloop)]].
  - left. exists k, e. split_and!; try done. intros i Hi. apply Hret. lia.
  - right; left. exists k. split_and!; try done. intros i Hi. apply Hret. lia.
  - right; right. split; [|done]. intros i Hi. apply Hret. lia.
Qed.

(** ** The start-up, step by step *)

(** Runs lines 84-122 on what is known of the world. *)
Ltac resolver_steps :=
  intros ?; unfold run_from_resolver, bind, call, perform, return_, ret, panic;
  simpl;
  repeat (match goal with
          | H : ?x = _ |- context [?x] => rewrite H
          end; simpl);
  apply f_equal2; [reflexivity|by rewrite <- ?app_assoc].

(** There is no way to the Job Manager, by what is known of the world. *)
Ltac no_resolver_inputs :=
  let H := fresh in
  intros (?&?&?&?&?&H);
  destruct H as (?&?&?&?&(?&?&?)&?);
  repeat match goal with
         | H1 : ?x = inl _, H2 : ?x = _ |- _ => rewrite H1 in H2; simplify_eq/=
         | H1 : ?x = (_, _), H2 : context [?x] |- _ => rewrite H1 in H2; simplify_eq/=
         end;
  try congruence.

Section Startup_steps.
Context (w : World).

(** Lines 84-122 in every case: with all they need, they make the Job
    Manager with these values, start it, and make the bot when it started;
    without, they return an error or panic before the Job Manager is
    made. *)
Lemma run_from_resolver_cases opt m :
  ∃ r tr, runs (run_from_resolver w opt m) r tr ∧
    ((∃ u c prow image agent tr0,
        resolver_inputs w opt u c prow image agent ∧
        Forall early_event tr0 ∧
        tr = tr0 ++ E_NewJobManager agent u prow image m
                      (GithubEndpoint opt) (ForcePROwner opt)
                 :: E_ManagerStart
                 :: match manager_Start w with
                    | None => [E_NewBot (os_Getenv w "BOT_TOKEN")]
                    | Some _ => []
                    end ∧
        r = match manager_Start w with
            | None => inl (os_Getenv w "BOT_TOKEN")
            | Some e =>
                inr (Return (Errorf "unable to load initial configuration: %v"
                                    [ArgError e]))
            end)
     ∨ ((¬ ∃ u c prow image agent, resolver_inputs w opt u c prow image agent) ∧
        is_inr r ∧ Forall early_event tr)) ∧
    (r = inr Panic → ∃ tr', tr = tr' ++ [E_NewImageClientNil]).
Proof.
  destruct (url_Parse w (ConfigResolver opt)) as [u|e] eqn:Hu.
  2:{ eexists _, [E_UrlParse (ConfigResolver opt)]. split; [resolver_steps|].
      split; [right; split_and!; [no_resolver_inputs|done|by repeat constructor]|done]. }
  destruct (String.length (os_Getenv w "BOT_TOKEN") =? 0)%nat eqn:Hlen.
  { eexists _, [E_UrlParse (ConfigResolver opt); E_Getenv "BOT_TOKEN"].
    split; [resolver_steps|].
    split; [|done]. right. split_and!; [|done|by repeat constructor].
    intros (?&?&?&?&?&H). destruct H as (_ & Htok & _). apply Htok.
    destruct (os_Getenv w "BOT_TOKEN"); [done|discriminate]. }
  assert (Htok : os_Getenv w "BOT_TOKEN" ≠ EmptyString).
  { intros Heq. by rewrite Heq in Hlen. }
  destruct (loadKubeconfig w) as [c|e] eqn:Hc.
  2:{ eexists _, [E_UrlParse (ConfigResolver opt); E_Getenv "BOT_TOKEN";
                  E_LoadKubeconfig]. split; [resolver_steps|].
      split; [right; split_and!; [no_resolver_inputs|done|by repeat constructor]|done]. }
  destruct (dynamic_NewForConfig w c) as [prow|e] eqn:Hp.
  2:{ eexists _, [E_UrlParse (ConfigResolver opt); E_Getenv "BOT_TOKEN";
                  E_LoadKubeconfig; E_DynamicNewForConfig c].
      split; [resolver_steps|].
      split; [right; split_and!; [no_resolver_inputs|done|by repeat constructor]|done]. }
  destruct (loadKubeconfigFromFlagOrDefault w (ReleaseClusterKubeconfig opt) c)
    as [[rc|] le] eqn:Hl.
  2:{ eexists _, [E_UrlParse (ConfigResolver opt); E_Getenv "BOT_TOKEN";
                  E_LoadKubeconfig; E_DynamicNewForConfig c;
                  E_LoadKubeconfigFromFlagOrDefault (ReleaseClusterKubeconfig opt) c;
                  E_NewImageClientNil].
      split; [resolver_steps|].
      split; [right; split_and!; [no_resolver_inputs|done|by repeat constructor]|].
      intros _.
      by exists [E_UrlParse (ConfigResolver opt); E_Getenv "BOT_TOKEN";
                 E_LoadKubeconfig; E_DynamicNewForConfig c;
                 E_LoadKubeconfigFromFlagOrDefault (ReleaseClusterKubeconfig opt) c]. }
  destruct (imageclientset_NewForConfig w rc) as [image|e] eqn:Hi.
  2:{ eexists _, [E_UrlParse (ConfigResolver opt); E_Getenv "BOT_TOKEN";
                  E_LoadKubeconfig; E_DynamicNewForConfig c;
                  E_LoadKubeconfigFromFlagOrDefault (ReleaseClusterKubeconfig opt) c;
                  E_NewImageClient rc].
      split; [resolver_steps|].
      split; [right; split_and!; [no_resolver_inputs|done|by repeat constructor]|done]. }
  destruct (prowconfig_ConfigAgent w) as [agent|e] eqn:Ha.
  2:{ eexists _, [E_UrlParse (ConfigResolver opt); E_Getenv "BOT_TOKEN";
                  E_LoadKubeconfig; E_DynamicNewForConfig c;
                  E_LoadKubeconfigFromFlagOrDefault (ReleaseClusterKubeconfig opt) c;
                  E_NewImageClient rc; E_ConfigAgent].
      split; [resolver_steps|].
      split; [right; split_and!; [no_resolver_inputs|done|by repeat constructor]|done]. }
  assert (Hin : resolver_inputs w opt u c prow image agent).
  { split_and!; try done. exists rc. by rewrite Hl. }
  destruct (manager_Start w) as [e|] eqn:Hm.
  - eexists _, ([E_UrlParse (ConfigResolver opt); E_Getenv "BOT_TOKEN";
         E_LoadKubeconfig; E_DynamicNewForConfig c;
         E_LoadKubeconfigFromFlagOrDefault (ReleaseClusterKubeconfig opt) c;
         E_NewImageClient rc; E_ConfigAgent]
        ++ [E_NewJobManager agent u prow image m (GithubEndpoint opt) (ForcePROwner opt);
            E_ManagerStart]).
    split; [resolver_steps|].
    split; [|done]. left. exists u, c, prow, image, agent. eexists.
    split_and!; [done| |reflexivity|reflexivity]. by repeat constructor.
  - eexists _, ([E_UrlParse (ConfigResolver opt); E_Getenv "BOT_TOKEN";
         E_LoadKubeconfig; E_DynamicNewForConfig c;
         E_LoadKubeconfigFromFlagOrDefault (ReleaseClusterKubeconfig opt) c;
         E_NewImageClient rc; E_ConfigAgent]
        ++ [E_NewJobManager agent u prow image m (GithubEndpoint opt) (ForcePROwner opt);
            E_ManagerStart; E_NewBot (os_Getenv w "BOT_TOKEN")]).
    split; [resolver_steps|].
    split; [|done]. left. exists u, c, prow, image, agent. eexists.
    split_and!; [done| |reflexivity|reflexivity]. by repeat constructor.
Qed.

Lemma scan_event_prelude ev : scan_event ev → prelude_event ev.
Proof. destruct ev; simpl; tauto. Qed.

Lemma watch_event_prelude ev : watch_event ev → prelude_event ev.
Proof. destruct ev; simpl; tauto. Qed.

(** [run] in every case: the scan fails and [run] returns its error,
    wrapped; or the scan gives a map, the watches are set up, and [run]
    goes on as lines 84-122 and the retry loop do. *)
Lemma run_cases fuel :
  (∃ err trs,
     readBuildClusterKubeConfigs w
       (BuildClusterKubeconfigsLocation (parse_options (command_line w))) []
     = ((None, Some err), trs) ∧
     Forall scan_event trs ∧
     run w fuel []
     = (Returned (Some (Errorf "unable to load build cluster configurations: %v"
                               [ArgError err])), trs))
  ∨ (∃ m trs trp r trr,
       readBuildClusterKubeConfigs w
         (BuildClusterKubeconfigsLocation (parse_options (command_line w))) []
       = ((Some m, None), trs) ∧
       Forall prelude_event trp ∧
       runs (run_from_resolver w (parse_options (command_line w)) (Some m)) r trr ∧
       run w fuel []
       = match r with
         | inr s => (stopped s, trp ++ trr)
         | inl _ => bot_loop w fuel 0 (trp ++ trr)
         end).
Proof.
  destruct (readBuildClusterKubeConfigs_total w
              (BuildClusterKubeconfigsLocation (parse_options (command_line w))))
    as (res & trs & Heq & Hev & Hres).
  assert (Hscan : Forall scan_event
            (E_ReadDir (BuildClusterKubeconfigsLocation
                          (parse_options (command_line w))) :: trs)).
  { by constructor. }
  assert (Hcase : (∃ e, res = (None, Some e)) ∨ (∃ m, res = (Some m, None))).
  { destruct (ioutil_ReadDir w _); [|by left].
    destruct Hres as [[_ ?]|[_ (m & ? & _)]]; [by left|right; eauto]. }
  destruct Hcase as [[e ->]|[m ->]].
  { left. eexists _, _. split_and!; [apply (Heq [])|done|].
    unfold run, startup, bind, scan_step. by rewrite Heq. }
  right.
  destruct (setupKubeconfigWatches_total w m) as (rw & trw & Hw & Hevw & _).
  pose proof (run_after_watches w fuel [] (Some m) _ rw _ (Heq []) (Hw _)) as Hrun.
  cbv zeta in Hrun.
  destruct (run_from_resolver_cases (parse_options (command_line w)) (Some m))
    as (r & trr & Hr & _ & _).
  rewrite Hr in Hrun.
  pose proof (Forall_impl _ _ _ Hscan scan_event_prelude) as Hp1.
  pose proof (Forall_impl _ _ _ Hevw watch_event_prelude) as Hp2.
  exists m. eexists _, _, r, trr. split_and!; [apply (Heq [])| |exact Hr|exact Hrun].
  destruct rw; rewrite ?Forall_app; split_and!; try done. by repeat constructor.
Qed.

(** The trace of [run] in three parts: the scan and the watches, lines
    84-122, and the retry loop. Either [run] gets to the Job Manager, with
    the map of the scan, or it does not and makes no call after those that
    come before it. *)
Lemma run_trace fuel :
  ∃ trp trr trl,
    (run w fuel []).2 = trp ++ trr ++ trl ∧
    Forall prelude_event trp ∧ Forall loop_event trl ∧
    ((∃ agent u prow image m tr0,
        reaches_manager w agent u prow image m ∧
        Forall early_event tr0 ∧
        trr = tr0 ++ E_NewJobManager agent u prow image (Some m)
                       (GithubEndpoint (parse_options (command_line w)))
                       (ForcePROwner (parse_options (command_line w)))
                  :: E_ManagerStart
                  :: match manager_Start w with
                     | None => [E_NewBot (os_Getenv w "BOT_TOKEN")]
                     | Some _ => []
                     end)
     ∨ ((¬ ∃ agent u prow image m, reaches_manager w agent u prow image m) ∧
        Forall early_event trr ∧ trl = [])).
Proof.
  destruct (run_cases fuel)
    as [(err & trs & Hscan & Hev & Hrun)|(m & trs & trp & r & trr & Hscan & Hp & Hr & Hrun)].
  { exists trs, [], []. rewrite Hrun. simpl. rewrite app_nil_r.
    split_and!; [done| |done|].
    { eapply Forall_impl; [exact Hev|apply scan_event_prelude]. }
    right. split_and!; [|done|done].
    intros (?&?&?&?&?&?&?&H&_). cbv zeta in H. rewrite Hscan in H. discriminate. }
  destruct (run_from_resolver_cases (parse_options (command_line w)) (Some m))
    as (r' & trr' & Hr' & Hcase & _).
  destruct (runs_det _ _ _ _ _ Hr Hr') as [<- <-].
  assert (Htail : ∃ trl, (run w fuel []).2 = trp ++ trr ++ trl ∧
                         Forall loop_event trl ∧ (is_inr r → trl = [])).
  { rewrite Hrun. destruct r as [tok|e].
    - destruct (bot_loop_never_nil w fuel 0 (trp ++ trr))
        as (trl & Hl & [[e ->]|[->| ->]]);
        exists trl; simpl; by rewrite <- app_assoc.
    - exists []. simpl. by rewrite app_nil_r. }
  destruct Htail as (trl & Htr & Hl & Hnil).
  exists trp, trr, trl. split_and!; try done.
  destruct Hcase as [(u & c & prow & image & agent & tr0 & Hin & H0 & -> & _)
                    |(Hno & Hr1 & Hearly)].
  - left. exists agent, u, prow, image, m, tr0. split_and!; try done.
    exists trs, c. by split.
  - right. split_and!; [|done|by apply Hnil].
    intros (agent & u & prow & image & m' & t1 & c & Hscan' & Hin).
    cbv zeta in Hscan'. rewrite Hscan in Hscan'. simplify_eq.
    apply Hno. by exists u, c, prow, image, agent.
Qed.

End Startup_steps.

(** X13. [run] never returns [nil]. However the world is, either [run]
    returns an error, and [main] then logs it with [log.Fatal] and ends the
    process with status 1; or [run] panics, which it does in the call of
    line 107 on a nil configuration and nowhere else; or [run] is inside
    [bot.Start]; or it is still going round the retry loop. In the last
    three cases [main] has done nothing of its own. *)
Theorem X13_run_returns_only_errors (w : World) (fuel : nat) :
  (∃ e tr, run w fuel [] = (Returned (Some e), tr) ∧
           main w fuel = (Returned (Some e), tr ++ [E_LogFatal e; E_Exit 1]))
  ∨ (∃ tr, run w fuel [] = (Panicked, tr ++ [E_NewImageClientNil]) ∧
           main w fuel = (Panicked, tr ++ [E_NewImageClientNil]))
  ∨ (∃ tr, run w fuel [] = (InsideBot, tr) ∧ main w fuel = (InsideBot, tr))
  ∨ (∃ tr, run w fuel [] = (StillRetrying, tr) ∧ main w fuel = (StillRetrying, tr)).
Proof.
  unfold main.
  destruct (run_cases w fuel)
    as [(err & trs & _ & _ & ->)|(m & trs & trp & r & trr & _ & _ & Hr & ->)].
  { left. by eexists _, _. }
  destruct (run_from_resolver_cases w (parse_options (command_line w)) (Some m))
    as (r' & trr' & Hr' & _ & Hpanic).
  destruct (runs_det _ _ _ _ _ Hr Hr') as [<- <-].
  destruct r as [tok|[e|]].
  - destruct (bot_loop_never_nil w fuel 0 (trp ++ trr))
      as (trl & _ & [[e ->]|[->| ->]]).
    + left. by eexists _, _.
    + right; right; left. by eexists.
    + right; right; right. by eexists.
  - left. by eexists _, _.
  - right; left. destruct (Hpanic eq_refl) as [tr' ->].
    exists (trp ++ tr'). simpl. by rewrite <- app_assoc.
Qed.

(** X14. One credential file that cannot be used keeps the bot from
    starting. When the directory cannot be listed, or the bundle of some
    credential entry cannot be built, [run] returns the error of the scan
    wrapped in [unable to load build cluster configurations], having made
    no calls but those of the scan: no watch is set up, the token is not
    read, no Job Manager and no bot are made; and [main] ends the process
    with status 1. *)
Theorem X14_scan_failure_ends_run (w : World) (fuel : nat) :
  is_inr (ioutil_ReadDir w
            (BuildClusterKubeconfigsLocation (parse_options (command_line w)))) ∨
  (∃ files,
     ioutil_ReadDir w
       (BuildClusterKubeconfigsLocation (parse_options (command_line w)))
     = inl files ∧
     Exists (entry_fails w
               (BuildClusterKubeconfigsLocation (parse_options (command_line w))))
            files) →
  ∃ err tr,
    readBuildClusterKubeConfigs w
      (BuildClusterKubeconfigsLocation (parse_options (command_line w))) []
    = ((None, Some err), tr) ∧
    Forall scan_event tr ∧
    run w fuel []
    = (Returned (Some (Errorf "unable to load build cluster configurations: %v"
                              [ArgError err])), tr) ∧
    main w fuel
    = (Returned (Some (Errorf "unable to load build cluster configurations: %v"
                              [ArgError err])),
       tr ++ [E_LogFatal (Errorf "unable to load build cluster configurations: %v"
                                 [ArgError err]);
              E_Exit 1]).
Proof.
  intros H.
  destruct (run_cases w fuel)
    as [(err & trs & Hscan & Hev & Hrun)|(m & trs & trp & r & trr & Hscan & _)].
  { exists err, trs. split_and!; try done. unfold main. by rewrite Hrun. }
  destruct (readBuildClusterKubeConfigs_total w
              (BuildClusterKubeconfigsLocation (parse_options (command_line w))))
    as (res & tr & Heq & _ & Hres).
  rewrite Heq in Hscan. simplify_eq.
  destruct (ioutil_ReadDir w _) as [files|e].
  - destruct H as [[]|(files' & [= <-] & Hex)].
    destruct Hres as [[_ [? ?]]|[Hno _]]; [simplify_eq|by destruct Hno].
  - destruct Hres as [? ?]. simplify_eq.
Qed.

Lemma X14_scan_failure_ends_run_witness :
  ∃ err tr,
    readBuildClusterKubeConfigs w_valid_and_malformed
      (BuildClusterKubeconfigsLocation
         (parse_options (command_line w_valid_and_malformed))) []
    = ((None, Some err), tr) ∧
    Forall scan_event tr ∧
    run w_valid_and_malformed 1 []
    = (Returned (Some (Errorf "unable to load build cluster configurations: %v"
                              [ArgError err])), tr) ∧
    main w_valid_and_malformed 1
    = (Returned (Some (Errorf "unable to load build cluster configurations: %v"
                              [ArgError err])),
       tr ++ [E_LogFatal (Errorf "unable to load build cluster configurations: %v"
                                 [ArgError err]);
              E_Exit 1]).
Proof.
  apply (X14_scan_failure_ends_run w_valid_and_malformed 1). right.
  exists [regular "a.kubeconfig"; regular "b.kubeconfig"].
  split; [reflexivity|].
  apply Exists_cons_tl, Exists_cons_hd. split.
  - split; [reflexivity|]. eexists. vm_compute. reflexivity.
  - eapply parse_fails; vm_compute; reflexivity.
Defined.

(** X15. What the Job Manager is made of. Whenever [run] makes the Job
    Manager, the cluster map it is given is the map the scan returned,
    never [nil]; the resolver is the URL parsed from [--config-resolver];
    the prow client was made from the ambient configuration; the image
    client was made from the configuration that line 106 gave back, which
    was not nil, whatever its error; the agent is the one of the prow
    options; the GitHub endpoint and the forced owner are those of the
    flags; and the bot token was set. *)
Theorem X15_job_manager_inputs (w : World) (fuel : nat) (agent : ConfigAgent)
    (u : URL) (prow : ProwClient) (image : ImageClientset)
    (clusters : option BuildClusterClientConfigMap) (gh owner : string) :
  E_NewJobManager agent u prow image clusters gh owner ∈ (run w fuel []).2 →
  ∃ m, clusters = Some m ∧
       reaches_manager w agent u prow image m ∧
       gh = GithubEndpoint (parse_options (command_line w)) ∧
       owner = ForcePROwner (parse_options (command_line w)).
Proof.
  intros Hin.
  destruct (run_trace w fuel) as (trp & trr & trl & Htr & Hp & Hl & Hcase).
  rewrite Htr, !elem_of_app in Hin. rewrite Forall_forall in Hp, Hl.
  destruct Hin as [Hin|[Hin|Hin]].
  { apply Hp in Hin. by destruct Hin. }
  2:{ by apply Hl in Hin. }
  destruct Hcase as [(agent' & u' & prow' & image' & m & tr0 & Hreach & H0 & ->)
                    |(_ & Hearly & _)].
  2:{ rewrite Forall_forall in Hearly. by apply Hearly in Hin. }
  rewrite elem_of_app, !elem_of_cons in Hin. rewrite Forall_forall in H0.
  destruct Hin as [Hin|[Hin|[Hin|Hin]]].
  - by apply H0 in Hin.
  - injection Hin as -> -> -> -> -> -> ->. by exists m.
  - done.
  - destruct (manager_Start w); [by apply elem_of_nil in Hin|].
    by apply list_elem_of_singleton in Hin.
Qed.

Lemma X15_job_manager_inputs_witness :
  ∃ m, Some (∅ : BuildClusterClientConfigMap) = Some m ∧
       reaches_manager w_release_cluster
         (ConfigAgentAt 0) (URLAt 0) (ProwClientAt 0) (ImageClientsetAt 7) m ∧
       "https://api.github.com"
       = GithubEndpoint (parse_options (command_line w_release_cluster)) ∧
       EmptyString = ForcePROwner (parse_options (command_line w_release_cluster)).
Proof.
  apply (X15_job_manager_inputs w_release_cluster 1).
  vm_compute. do 10 apply list_elem_of_further. apply list_elem_of_here.
Defined.

(** X16. When the bot is made. [run] makes the bot if and only if the
    scan gives a map, the resolver URL parses, the bot token is set, the
    ambient configuration loads, the prow client can be made, line 106
    gives back a configuration that is not nil, the image client and the
    configuration agent can be made, and the Job Manager starts. Neither
    the watch set-up nor the error of line 106 has a say. The bot is made
    with the value of [BOT_TOKEN], which is not empty. *)
Theorem X16_bot_is_made_iff (w : World) (fuel : nat) :
  ((∃ token, E_NewBot token ∈ (run w fuel []).2) ↔
   ((∃ agent u prow image m, reaches_manager w agent u prow image m) ∧
    manager_Start w = None))
  ∧ (∀ token, E_NewBot token ∈ (run w fuel []).2 →
       token = os_Getenv w "BOT_TOKEN" ∧ token ≠ EmptyString).
Proof.
  destruct (run_trace w fuel) as (trp & trr & trl & Htr & Hp & Hl & Hcase).
  rewrite Forall_forall in Hp, Hl.
  assert (Hbot : ∀ token, E_NewBot token ∈ (run w fuel []).2 →
    token = os_Getenv w "BOT_TOKEN" ∧ manager_Start w = None ∧
    ∃ agent u prow image m, reaches_manager w agent u prow image m).
  { intros token Hin. rewrite Htr, !elem_of_app in Hin.
    destruct Hin as [Hin|[Hin|Hin]].
    { apply Hp in Hin. by destruct Hin. }
    2:{ by apply Hl in Hin. }
    destruct Hcase as [(agent & u & prow & image & m & tr0 & Hreach & H0 & ->)
                      |(_ & Hearly & _)].
    2:{ rewrite Forall_forall in Hearly. by apply Hearly in Hin. }
    rewrite elem_of_app, !elem_of_cons in Hin. rewrite Forall_forall in H0.
    destruct Hin as [Hin|[Hin|[Hin|Hin]]]; [by apply H0 in Hin|done|done|].
    destruct (manager_Start w); [by apply elem_of_nil in Hin|].
    apply list_elem_of_singleton in Hin. simplify_eq.
    split_and!; try done. by exists agent, u, prow, image, m. }
  split; [split|].
  - intros [token Hin]. destruct (Hbot token Hin) as (_ & ? & ?). by split.
  - intros [Hreach Hstart].
    destruct Hcase as [(agent & u & prow & image & m & tr0 & _ & _ & ->)
                      |(Hno & _)]; [|by destruct Hno].
    exists (os_Getenv w "BOT_TOKEN"). rewrite Htr, Hstart.
    rewrite !elem_of_app, !elem_of_cons. right; left. do 3 right. by left.
  - intros token Hin.
    destruct (Hbot token Hin) as (-> & _ & agent & u & prow & image & m & Hreach).
    split; [done|]. by destruct Hreach as (t1 & c & _ & _ & ? & _).
Qed.
